(** * Bonnie marketing assistant: credential configuration

    A shallow embedding of
    - [src/services/config.ts] (the compiled-in [API_CONFIG] table with
      [isConfigured] and [getMissingConfigs]), and
    - [src/components/APISettings.tsx] (the settings component: catalog,
      status loading, the configuration dialog and the connection test),
    together with the credential registry that the specification describes
    for the backend those files talk to. *)

From Stdlib Require Import Ascii.
From stdpp Require Import gmap strings list fin_maps.

Local Open Scope string_scope.
Local Open Scope list_scope.

(** ** [services/config.ts] *)

Module Config.

(** [process.env]: a variable is either undefined or bound to a string. *)
Abbreviation Env := (gmap string string).

(** [process.env.NAME || ''].  An undefined variable and one bound to the
    empty string are both falsy, so both give the empty string. *)
Definition env_or_empty (env : Env) (name : string) : string :=
  match env !! name with
  | Some v => if decide (v = "") then "" else v
  | None => ""
  end.

(** A service's config object: its own properties in declaration order. *)
Abbreviation ServiceConfig := (list (string * string)).

(** [API_CONFIG], in declaration order; [Object.entries] and
    [Object.values] enumerate string keys in that order. *)
Definition API_CONFIG (env : Env) : list (string * ServiceConfig) :=
  let e := env_or_empty env in
  [ ("anthropic",
      [ ("apiKey", e "REACT_APP_ANTHROPIC_API_KEY");
        ("baseUrl", "https://api.anthropic.com/v1") ]);
    ("openai",
      [ ("apiKey", e "REACT_APP_OPENAI_API_KEY");
        ("baseUrl", "https://api.openai.com/v1") ]);
    ("instagram",
      [ ("accessToken", e "REACT_APP_INSTAGRAM_ACCESS_TOKEN");
        ("baseUrl", "https://graph.instagram.com/v17.0") ]);
    ("facebook",
      [ ("accessToken", e "REACT_APP_FACEBOOK_ACCESS_TOKEN");
        ("baseUrl", "https://graph.facebook.com/v17.0") ]);
    ("twitter",
      [ ("apiKey", e "REACT_APP_TWITTER_API_KEY");
        ("apiSecret", e "REACT_APP_TWITTER_API_SECRET");
        ("accessToken", e "REACT_APP_TWITTER_ACCESS_TOKEN");
        ("accessSecret", e "REACT_APP_TWITTER_ACCESS_SECRET");
        ("baseUrl", "https://api.twitter.com/2") ]);
    ("tiktok",
      [ ("apiKey", e "REACT_APP_TIKTOK_API_KEY");
        ("baseUrl", "https://open-api.tiktok.com/v1.3") ]);
    ("threads",
      [ ("accessToken", e "REACT_APP_THREADS_ACCESS_TOKEN");
        ("baseUrl", "https://graph.threads.net/v1.0") ]);
    ("bluesky",
      [ ("identifier", e "REACT_APP_BLUESKY_IDENTIFIER");
        ("password", e "REACT_APP_BLUESKY_PASSWORD");
        ("baseUrl", "https://bsky.social/xrpc") ]);
    ("midjourney",
      [ ("apiKey", e "REACT_APP_MIDJOURNEY_API_KEY");
        ("baseUrl", "https://api.midjourney.com/v1") ]);
    ("dalle",
      [ ("apiKey", e "REACT_APP_DALL_E_API_KEY");
        ("baseUrl", "https://api.openai.com/v1") ]);
    ("stability",
      [ ("apiKey", e "REACT_APP_STABILITY_API_KEY");
        ("baseUrl", "https://api.stability.ai/v1") ]);
    ("ayrshare",
      [ ("apiKey", e "REACT_APP_AYRSHARE_API_KEY");
        ("baseUrl", "https://app.ayrshare.com/api") ]);
    ("buffer",
      [ ("accessToken", e "REACT_APP_BUFFER_ACCESS_TOKEN");
        ("baseUrl", "https://api.bufferapp.com/1") ]);
    ("hootsuite",
      [ ("accessToken", e "REACT_APP_HOOTSUITE_ACCESS_TOKEN");
        ("baseUrl", "https://platform.hootsuite.com/v1") ]);
    ("googleAnalytics",
      [ ("id", e "REACT_APP_GOOGLE_ANALYTICS_ID") ]);
    ("facebookPixel",
      [ ("id", e "REACT_APP_FACEBOOK_PIXEL_ID") ]);
    ("mailchimp",
      [ ("apiKey", e "REACT_APP_MAILCHIMP_API_KEY");
        ("baseUrl", "https://us1.api.mailchimp.com/3.0") ]);
    ("convertkit",
      [ ("apiKey", e "REACT_APP_CONVERTKIT_API_KEY");
        ("baseUrl", "https://api.convertkit.com/v3") ]);
    ("amazon",
      [ ("apiKey", e "REACT_APP_AMAZON_API_KEY");
        ("baseUrl", "https://webservices.amazon.com/paapi5") ]);
    ("bookbub",
      [ ("apiKey", e "REACT_APP_BOOKBUB_API_KEY");
        ("baseUrl", "https://partners.bookbub.com/api/v1") ]) ].

(** The keys of [API_CONFIG]; they do not depend on the environment. *)
Definition service_keys : list string :=
  [ "anthropic"; "openai"; "instagram"; "facebook"; "twitter"; "tiktok";
    "threads"; "bluesky"; "midjourney"; "dalle"; "stability"; "ayrshare";
    "buffer"; "hootsuite"; "googleAnalytics"; "facebookPixel"; "mailchimp";
    "convertkit"; "amazon"; "bookbub" ].

(** [obj[key]] on an object given by its entries. *)
Fixpoint get {A} (key : string) (entries : list (string * A)) : option A :=
  match entries with
  | [] => None
  | (k, v) :: rest => if decide (k = key) then Some v else get key rest
  end.

(** [Object.values(config)]. *)
Definition values {A} (entries : list (string * A)) : list A := entries.*2.

(** [value => value !== ''] *)
Definition nonempty (value : string) : bool := bool_decide (value ≠ "").

(** [Object.values(config).some(value => value !== '')] *)
Definition some_nonempty (config : ServiceConfig) : bool :=
  existsb nonempty (values config).

(** [isConfigured(service)] *)
Definition isConfigured (env : Env) (service : string) : bool :=
  match get service (API_CONFIG env) with
  | None => false                       (* if (!config) return false *)
  | Some config => some_nonempty config
  end.

(** The body of [isConfigured] over an arbitrary table in place of
    [API_CONFIG]. *)
Definition configured_in (entries : list (string * ServiceConfig))
    (service : string) : bool :=
  match get service entries with
  | None => false
  | Some config => some_nonempty config
  end.

(** [getMissingConfigs()]: the [forEach] over [Object.entries(API_CONFIG)]
    pushing onto [missing], written as a left fold. *)
Definition getMissingConfigs_step (missing : list string)
    (entry : string * ServiceConfig) : list string :=
  let '(service, config) := entry in
  let hasValidConfig := some_nonempty config in
  if negb hasValidConfig then missing ++ [service] else missing.

Definition getMissingConfigs (env : Env) : list string :=
  foldl getMissingConfigs_step [] (API_CONFIG env).

End Config.

(** ** [components/APISettings.tsx] *)

Module Settings.

(** The [severity] of the snackbar. *)
Inductive Severity := SevSuccess | SevError | SevWarning | SevInfo.

Global Instance Severity_eq_dec : EqDecision Severity.
Proof. solve_decision. Defined.

(** [interface APIService]; [status] is one of the string literals
    ['connected' | 'disconnected' | 'error']. *)
Record APIService := {
  name : string;
  category : string;
  description : string;
  status : string;
  enabled : bool;
  configured : bool
}.

(** [interface APIConfiguration], the body of the configure request. *)
Record APIConfiguration := {
  cfg_service : string;
  cfg_apiKey : string;
  cfg_additionalConfig : gmap string string
}.

(** One entry of [serviceCategories]. *)
Record CategoryInfo := {
  title : string;
  iconName : string;
  color : string;
  cat_services : list (string * string)
}.

Definition serviceCategories : list (string * CategoryInfo) :=
  [ ("ai_services",
      {| title := "AI Services"; iconName := "CloudIcon"; color := "#8b5cf6";
         cat_services :=
           [ ("anthropic", "Claude AI for content generation");
             ("openai", "DALL-E 3 for image generation") ] |});
    ("social_media",
      {| title := "Social Media"; iconName := "ShareIcon"; color := "#f97316";
         cat_services :=
           [ ("instagram", "Instagram Business API");
             ("facebook", "Facebook Graph API");
             ("twitter", "Twitter API v2");
             ("tiktok", "TikTok for Business API");
             ("threads", "Threads API");
             ("bluesky", "Bluesky API") ] |});
    ("analytics",
      {| title := "Analytics"; iconName := "AnalyticsIcon"; color := "#06b6d4";
         cat_services :=
           [ ("google_analytics", "Google Analytics 4");
             ("facebook_pixel", "Facebook Pixel tracking") ] |});
    ("book_platforms",
      {| title := "Book Platforms"; iconName := "BookIcon"; color := "#10b981";
         cat_services :=
           [ ("amazon_kdp", "Amazon KDP sales tracking");
             ("bookbub", "BookBub advertising API") ] |});
    ("email_marketing",
      {| title := "Email Marketing"; iconName := "EmailIcon"; color := "#f59e0b";
         cat_services :=
           [ ("mailchimp", "Mailchimp email campaigns");
             ("convertkit", "ConvertKit email automation") ] |});
    ("author_settings",
      {| title := "Author Settings"; iconName := "SecurityIcon"; color := "#6366f1";
         cat_services :=
           [ ("author_email", "Author email for reports and notifications");
             ("notification_preferences", "Email notification settings") ] |}) ].

(** What the status endpoint reports for one service:
    [data.data[category][serviceName]]. *)
Record ServiceStatus := {
  ss_enabled : bool;
  ss_configured : bool;
  ss_status : string
}.

(** The parsed body of the status response: [{ success, data }]. *)
Record StatusData := {
  sd_success : bool;
  sd_data : gmap string (gmap string ServiceStatus)
}.

(** The parsed body of the configure response: [{ success, error? }]. *)
Record ConfigureData := {
  cd_success : bool;
  cd_error : option string
}.

(** An awaited promise either resolves with a value or throws; [Rejected]
    stands for any exception raised inside the [try] block ([fetch] failing,
    a body that is not JSON). *)
Inductive Awaited (A : Type) :=
  | Resolved (value : A)
  | Rejected (reason : string).
Arguments Resolved {A} value.
Arguments Rejected {A} reason.

(** The dialog state: [{ open, service, category }]. *)
Record ConfigDialog := {
  dlg_open : bool;
  dlg_service : string;
  dlg_category : string
}.

Record Snackbar := {
  snack_open : bool;
  message : string;
  severity : Severity
}.

(** The component's [useState] cells. *)
Record State := {
  services : list APIService;
  loading : bool;
  configDialog : ConfigDialog;
  apiKey : string;
  showApiKey : bool;
  additionalConfig : gmap string string;
  snackbar : Snackbar;
  testingConnection : bool
}.

(** The state at mount, from the [useState] initialisers. *)
Definition initial : State :=
  {| services := [];
     loading := true;
     configDialog := {| dlg_open := false; dlg_service := ""; dlg_category := "" |};
     apiKey := "";
     showApiKey := false;
     additionalConfig := ∅;
     snackbar := {| snack_open := false; message := ""; severity := SevInfo |};
     testingConnection := false |}.

(** What a handler does to the outside world, in order. *)
Inductive Event :=
  | GetStatus                                (* fetch(API_ENDPOINTS.STATUS) *)
  | PostConfigure (body : APIConfiguration)  (* fetch(API_ENDPOINTS.CONFIGURE, POST) *)
  | Sleep (ms : nat)                         (* setTimeout(resolve, ms) *)
  | ConsoleError (label reason : string)     (* console.error(label, error) *)
  | Shown (message : string) (sev : Severity). (* a snackbar put on screen *)

(** Handlers run over the state cells and append to the event trace. *)
Definition Eff (A : Type) : Type := State → A * State * list Event.

Global Instance Eff_ret : MRet Eff := λ A a st, (a, st, []).

Global Instance Eff_bind : MBind Eff := λ A B k m st,
  let '(a, st1, tr1) := m st in
  let '(b, st2, tr2) := k a st1 in
  (b, st2, tr1 ++ tr2).

Definition emit (e : Event) : Eff unit := λ st, (tt, st, [e]).

Definition read {A} (cell : State → A) : Eff A := λ st, (cell st, st, []).

Definition modify (f : State → State) : Eff unit := λ st, (tt, f st, []).

(** The state and the trace a handler leaves. *)
Definition state_after {A} (m : Eff A) (st : State) : State := (m st).1.2.
Definition trace_of {A} (m : Eff A) (st : State) : list Event := (m st).2.

Definition setServices (v : list APIService) : Eff unit :=
  modify (λ st,
    {| services := v; loading := loading st; configDialog := configDialog st;
       apiKey := apiKey st; showApiKey := showApiKey st;
       additionalConfig := additionalConfig st; snackbar := snackbar st;
       testingConnection := testingConnection st |}).

Definition setLoading (v : bool) : Eff unit :=
  modify (λ st,
    {| services := services st; loading := v; configDialog := configDialog st;
       apiKey := apiKey st; showApiKey := showApiKey st;
       additionalConfig := additionalConfig st; snackbar := snackbar st;
       testingConnection := testingConnection st |}).

Definition setConfigDialog (v : ConfigDialog) : Eff unit :=
  modify (λ st,
    {| services := services st; loading := loading st; configDialog := v;
       apiKey := apiKey st; showApiKey := showApiKey st;
       additionalConfig := additionalConfig st; snackbar := snackbar st;
       testingConnection := testingConnection st |}).

Definition setApiKey (v : string) : Eff unit :=
  modify (λ st,
    {| services := services st; loading := loading st;
       configDialog := configDialog st;
       apiKey := v; showApiKey := showApiKey st;
       additionalConfig := additionalConfig st; snackbar := snackbar st;
       testingConnection := testingConnection st |}).

Definition setShowApiKey (v : bool) : Eff unit :=
  modify (λ st,
    {| services := services st; loading := loading st;
       configDialog := configDialog st;
       apiKey := apiKey st; showApiKey := v;
       additionalConfig := additionalConfig st; snackbar := snackbar st;
       testingConnection := testingConnection st |}).

(** [setAdditionalConfig(prev => f(prev))] *)
Definition setAdditionalConfig (f : gmap string string → gmap string string)
    : Eff unit :=
  modify (λ st,
    {| services := services st; loading := loading st;
       configDialog := configDialog st;
       apiKey := apiKey st; showApiKey := showApiKey st;
       additionalConfig := f (additionalConfig st); snackbar := snackbar st;
       testingConnection := testingConnection st |}).

Definition setSnackbar (v : Snackbar) : Eff unit :=
  modify (λ st,
    {| services := services st; loading := loading st;
       configDialog := configDialog st;
       apiKey := apiKey st; showApiKey := showApiKey st;
       additionalConfig := additionalConfig st; snackbar := v;
       testingConnection := testingConnection st |}).

Definition setTestingConnection (v : bool) : Eff unit :=
  modify (λ st,
    {| services := services st; loading := loading st;
       configDialog := configDialog st;
       apiKey := apiKey st; showApiKey := showApiKey st;
       additionalConfig := additionalConfig st; snackbar := snackbar st;
       testingConnection := v |}).

(** [showSnackbar(message, severity)] *)
Definition showSnackbar (msg : string) (sev : Severity) : Eff unit :=
  setSnackbar {| snack_open := true; message := msg; severity := sev |} ;;
  emit (Shown msg sev).

(** [data.data[category]?.[serviceName] || { enabled: false, configured:
    false, status: 'not_configured' }]: the reported record, or the default
    when the category or the service is not in the response. *)
Definition serviceStatus (data : gmap string (gmap string ServiceStatus))
    (category serviceName : string) : ServiceStatus :=
  match data !! category ≫= (λ services, services !! serviceName) with
  | Some reported => reported
  | None => {| ss_enabled := false; ss_configured := false;
               ss_status := "not_configured" |}
  end.

(** [serviceStatus.status === 'ready' ? 'connected' :
     serviceStatus.configured ? 'error' : 'disconnected'] *)
Definition displayed_status (s : ServiceStatus) : string :=
  if decide (ss_status s = "ready") then "connected"
  else if ss_configured s then "error" else "disconnected".

(** The element pushed onto [servicesArray] for one catalog service. *)
Definition service_entry (data : gmap string (gmap string ServiceStatus))
    (category : string) (service : string * string) : APIService :=
  let '(serviceName, description) := service in
  let serviceStatus := serviceStatus data category serviceName in
  {| name := serviceName;
     category := category;
     description := description;
     status := displayed_status serviceStatus;
     enabled := ss_enabled serviceStatus;
     configured := ss_configured serviceStatus |}.

(** [servicesArray] after the two nested [forEach] loops. *)
Definition servicesArray (data : gmap string (gmap string ServiceStatus))
    : list APIService :=
  mjoin ((λ '(category, categoryInfo),
            service_entry data category <$> cat_services categoryInfo)
         <$> serviceCategories).

(** [loadAPIStatus()], given what the status request comes back with. *)
Definition loadAPIStatus (response : Awaited StatusData) : Eff unit :=
  setLoading true ;;
  emit GetStatus ;;
  match response with
  | Resolved data =>
      if sd_success data then setServices (servicesArray (sd_data data))
      else mret tt
  | Rejected reason =>                                         (* catch *)
      emit (ConsoleError "Error loading API status:" reason) ;;
      showSnackbar "Error loading API status" SevError
  end ;;
  setLoading false.                                            (* finally *)

(** [handleConfigureService(serviceName, category)] *)
Definition handleConfigureService (serviceName category : string) : Eff unit :=
  setConfigDialog {| dlg_open := true; dlg_service := serviceName;
                     dlg_category := category |} ;;
  setApiKey "" ;;
  setAdditionalConfig (λ _, ∅) ;;
  setShowApiKey false.

(** The dialog's [onClose] and Cancel button. *)
Definition closed_dialog : ConfigDialog :=
  {| dlg_open := false; dlg_service := ""; dlg_category := "" |}.

(** [`Configuration failed: ${data.error}`]; an absent [error] prints as
    [undefined]. *)
Definition configuration_failed (err : option string) : string :=
  "Configuration failed: " +:+ default "undefined" err.

(** [handleSaveConfiguration()], given what the configure request and the
    status reload that follows a success come back with. *)
Definition handleSaveConfiguration (response : Awaited ConfigureData)
    (reload : Awaited StatusData) : Eff unit :=
  setTestingConnection true ;;
  dialog ← read configDialog ;
  key ← read apiKey ;
  additional ← read additionalConfig ;
  let configuration :=
    {| cfg_service := dlg_service dialog;
       cfg_apiKey := key;
       cfg_additionalConfig := additional |} in
  emit (PostConfigure configuration) ;;
  match response with
  | Resolved data =>
      if cd_success data then
        showSnackbar (dlg_service dialog +:+ " configured successfully")
                     SevSuccess ;;
        setConfigDialog closed_dialog ;;
        loadAPIStatus reload
      else
        showSnackbar (configuration_failed (cd_error data)) SevError
  | Rejected reason =>                                         (* catch *)
      emit (ConsoleError "Error configuring service:" reason) ;;
      showSnackbar "Error configuring service" SevError
  end ;;
  setTestingConnection false.                                  (* finally *)

(** [handleTestConnection(serviceName)].  The awaited promise is the two
    second timer, which always resolves: the source only ever runs this
    handler with [Resolved tt].  [Rejected] is the [catch] branch. *)
Definition handleTestConnection (serviceName : string) (timer : Awaited unit)
    : Eff unit :=
  setTestingConnection true ;;
  showSnackbar ("Testing connection to " +:+ serviceName +:+ "...") SevInfo ;;
  emit (Sleep 2000) ;;
  match timer with
  | Resolved _ =>
      showSnackbar ("Connection to " +:+ serviceName +:+ " successful")
                   SevSuccess
  | Rejected _ =>                                              (* catch *)
      showSnackbar ("Connection test failed for " +:+ serviceName) SevError
  end ;;
  setTestingConnection false.                                  (* finally *)

(** One element of [fields] in [renderAdditionalConfigFields]:
    [{ key, label, type?, required? }]. *)
Record Field := {
  key : string;
  label : string;
  type : option string;
  required : option bool
}.

(** The [switch (service)] of [renderAdditionalConfigFields]. *)
Definition additionalConfigFields (service : string) : list Field :=
  if decide (service = "facebook") then
    [ {| key := "page_id"; label := "Page ID"; type := None;
         required := Some true |} ]
  else if decide (service = "instagram") then
    [ {| key := "business_account_id"; label := "Business Account ID";
         type := None; required := Some true |} ]
  else if decide (service = "twitter") then
    [ {| key := "api_secret"; label := "API Secret"; type := Some "password";
         required := Some true |};
      {| key := "access_token"; label := "Access Token"; type := None;
         required := Some true |};
      {| key := "access_secret"; label := "Access Token Secret";
         type := Some "password"; required := Some true |} ]
  else if decide (service = "google_analytics") then
    [ {| key := "measurement_id"; label := "Measurement ID"; type := None;
         required := Some true |} ]
  else if decide (service = "amazon_kdp") then
    [ {| key := "asin"; label := "Book ASIN"; type := None;
         required := Some true |} ]
  else if decide (service = "mailchimp") then
    [ {| key := "audience_id"; label := "Audience ID"; type := None;
         required := Some true |} ]
  else if decide (service = "author_email") then
    [ {| key := "email"; label := "Author Email Address"; type := Some "email";
         required := Some true |};
      {| key := "name"; label := "Author Name"; type := None;
         required := Some true |} ]
  else if decide (service = "notification_preferences") then
    [ {| key := "daily_reports"; label := "Daily Reports";
         type := Some "checkbox"; required := None |};
      {| key := "campaign_alerts"; label := "Campaign Alerts";
         type := Some "checkbox"; required := None |};
      {| key := "performance_summaries";
         label := "Weekly Performance Summaries";
         type := Some "checkbox"; required := None |} ]
  else [].

(** The [onChange] of an additional text field:
    [setAdditionalConfig(prev => ({ ...prev, [field.key]: e.target.value }))]. *)
Definition changeAdditionalField (field value : string) : Eff unit :=
  setAdditionalConfig (λ prev, <[field := value]> prev).

(** The [disabled] prop of the Save button: [!apiKey || testingConnection]. *)
Definition saveDisabled (st : State) : bool :=
  bool_decide (apiKey st = "") || testingConnection st.

(** [services.find(s => s.name === serviceName)] *)
Definition find_service (st : State) (serviceName : string) : option APIService :=
  List.find (λ s, bool_decide (name s = serviceName)) (services st).

(** The Test button is rendered only when [service?.status === 'connected']. *)
Definition testOffered (st : State) (serviceName : string) : bool :=
  match find_service st serviceName with
  | Some s => bool_decide (status s = "connected")
  | None => false
  end.

(** The chip label: [service?.status || 'disconnected']. *)
Definition chipStatus (st : State) (serviceName : string) : string :=
  match find_service st serviceName with
  | Some s => if decide (status s = "") then "disconnected" else status s
  | None => "disconnected"
  end.

(** The events of [loadAPIStatus], which do not depend on the state. *)
Definition load_events (response : Awaited StatusData) : list Event :=
  GetStatus ::
  match response with
  | Resolved _ => []
  | Rejected reason =>
      [ ConsoleError "Error loading API status:" reason;
        Shown "Error loading API status" SevError ]
  end.

(** The dialog as the user has it after pressing Configure on a service and
    typing an API key. *)
Definition dialog_with_key (serviceName category key : string) (st : State)
    : State :=
  state_after (setApiKey key)
    (state_after (handleConfigureService serviceName category) st).

(** The names of the catalog's services, category by category. *)
Definition descriptor_names : list string :=
  mjoin ((λ '(_, categoryInfo), (cat_services categoryInfo).*1)
         <$> serviceCategories).

(** The component once a status response reporting success has been
    loaded at mount. *)
Definition loaded (data : gmap string (gmap string ServiceStatus)) : State :=
  state_after
    (loadAPIStatus (Resolved {| sd_success := true; sd_data := data |}))
    initial.

(** *** What the component renders *)

(** The three chips of the header:
    [services.filter(s => s.status === 'connected').length] and its two
    siblings; the chip over the disconnected ones is labelled Not
    Configured. *)
Definition connectedChip (st : State) : nat :=
  length (filter (λ s, status s = "connected") (services st)).

Definition notConfiguredChip (st : State) : nat :=
  length (filter (λ s, status s = "disconnected") (services st)).

Definition errorChip (st : State) : nat :=
  length (filter (λ s, status s = "error") (services st)).

(** The counter of a category's accordion:
    [services.filter(s => s.category === categoryKey &&
                          s.status === 'connected').length]
    over [Object.keys(category.services).length], coloured success when the
    first is positive. *)
Definition categoryConnected (st : State) (categoryKey : string) : nat :=
  length (filter (λ s, category s = categoryKey ∧ status s = "connected")
                 (services st)).

Definition categoryTotal (categoryInfo : CategoryInfo) : nat :=
  length (cat_services categoryInfo).

Definition categoryChipColor (st : State) (categoryKey : string) : string :=
  if decide (0 < categoryConnected st categoryKey) then "success"
  else "default".

(** The icons the component draws. *)
Inductive Icon :=
  | CheckCircleIcon | ErrorIcon | WarningIcon | SettingsIcon
  | CloudIcon | ShareIcon | AnalyticsIcon | BookIcon | EmailIcon
  | SecurityIcon.

(** [getStatusIcon(status)]: the icon with its colour. *)
Definition getStatusIcon (status : string) : Icon * string :=
  if decide (status = "connected") then (CheckCircleIcon, "#10b981")
  else if decide (status = "error") then (ErrorIcon, "#ef4444")
  else (WarningIcon, "#f59e0b").

(** [getStatusColor(status)] *)
Definition getStatusColor (status : string) : string :=
  if decide (status = "connected") then "#10b981"
  else if decide (status = "error") then "#ef4444"
  else "#6b7280".

(** What one [ListItem] of a category shows for a service: the icon, the
    chip with its label and background, and whether the Test button is
    there. *)
Record Row := {
  row_icon : Icon * string;
  row_secondary : string;
  row_chip : string;
  row_chip_color : string;
  row_test : bool
}.

Definition renderRow (st : State) (service : string * string) : Row :=
  let '(serviceName, description) := service in
  {| row_icon := getStatusIcon (chipStatus st serviceName);
     row_secondary := description;
     row_chip := chipStatus st serviceName;
     row_chip_color := getStatusColor (chipStatus st serviceName);
     row_test := testOffered st serviceName |}.

(** The [checked] prop of an additional checkbox:
    [additionalConfig[field.key] === 'true' || false]. *)
Definition checkboxChecked (st : State) (field : string) : bool :=
  bool_decide (additionalConfig st !! field = Some "true").

(** The [onChange] of an additional checkbox:
    [setAdditionalConfig(prev => ({ ...prev,
       [field.key]: e.target.checked.toString() }))]. *)
Definition changeCheckbox (field : string) (checked : bool) : Eff unit :=
  setAdditionalConfig
    (λ prev, <[field := if checked then "true" else "false"]> prev).

(** The [value] prop of an additional text field:
    [additionalConfig[field.key] || '']. *)
Definition fieldValue (st : State) (field : string) : string :=
  default "" (additionalConfig st !! field).

(** The [type] prop of an additional text field. *)
Definition inputType (f : Field) : string :=
  if decide (type f = Some "password") then "password"
  else if decide (type f = Some "email") then "email"
  else "text".

(** What [renderAdditionalConfigFields] returns for one field. *)
Inductive Control :=
  | CheckboxControl (field label : string) (checked : bool)
  | TextControl (field label type value : string) (required : option bool).

(** [renderAdditionalConfigFields()]: the fields of the dialog's service,
    each mapped to its control. *)
Definition renderAdditionalConfigFields (st : State) : list Control :=
  (λ f,
     if decide (type f = Some "checkbox") then
       CheckboxControl (key f) (label f) (checkboxChecked st (key f))
     else
       TextControl (key f) (label f) (inputType f) (fieldValue st (key f))
                   (required f))
  <$> additionalConfigFields (dlg_service (configDialog st)).

(** The [type] of the API key field: [showApiKey ? 'text' : 'password']. *)
Definition apiKeyInputType (st : State) : string :=
  if showApiKey st then "text" else "password".

(** The eye button: [setShowApiKey(!showApiKey)]. *)
Definition toggleShowApiKey : Eff unit :=
  shown ← read showApiKey ;
  setShowApiKey (negb shown).

(** The dialog's [onClose] and its Cancel button. *)
Definition closeDialog : Eff unit := setConfigDialog closed_dialog.

(** The snackbar's [onClose]: [setSnackbar({ ...snackbar, open: false })]. *)
Definition closeSnackbar : Eff unit :=
  current ← read snackbar ;
  setSnackbar {| snack_open := false; message := message current;
                 severity := severity current |}.

(** How many configure requests a trace holds. *)
Definition posts (trace : list Event) : nat :=
  length (List.filter
            (λ e, match e with PostConfigure _ => true | _ => false end)
            trace).

(** How many status requests a trace holds. *)
Definition status_requests (trace : list Event) : nat :=
  length (List.filter (λ e, match e with GetStatus => true | _ => false end)
                      trace).

(** [s.replace(pattern, replacement)] for a pattern and a replacement of
    one character each: only the first occurrence is replaced. *)
Fixpoint replaceFirst (pattern replacement : Ascii.ascii) (s : string)
    : string :=
  match s with
  | EmptyString => EmptyString
  | String c rest =>
      if decide (c = pattern) then String replacement rest
      else String c (replaceFirst pattern replacement rest)
  end.

(** [toUpperCase] of one character of ASCII text: a lower-case letter
    ([a] is 97, [z] is 122) moves up by 32, anything else stays. *)
Definition upper (c : Ascii.ascii) : Ascii.ascii :=
  let n := Ascii.nat_of_ascii c in
  if decide (97 ≤ n ∧ n ≤ 122)%nat then Ascii.ascii_of_nat (n - 32) else c.

(** [s.toUpperCase()], exact on ASCII text, which is what the component
    applies it to (the keys of [serviceCategories]). *)
Fixpoint toUpperCase (s : string) : string :=
  match s with
  | EmptyString => EmptyString
  | String c rest => String (upper c) (toUpperCase rest)
  end.

(** The heading of a row and of the dialog:
    [serviceName.replace('_', ' ').toUpperCase()]. *)
Definition displayTitle (serviceName : string) : string :=
  toUpperCase (replaceFirst "_"%char " "%char serviceName).

End Settings.

(** ** The credential registry behind the settings component

    The component above posts configurations to, and loads statuses from, a
    backend whose handlers are not among the sources.  The registry below is
    that missing part, written from the specification's component design
    (operations [getStatus], [configure], [testConnection],
    [removeConfiguration]) and data model. *)

Module Registry.

(** Modelled from the spec: the enumerated [category] of a
    ServiceDescriptor; the backend's catalog is missing. *)
Inductive Category :=
  | ai_services | social_media | analytics
  | book_platforms | email_marketing | author_settings.

(** Modelled from the spec: the [kind] of a field spec,
    [text | password | email | checkbox]. *)
Inductive FieldKind := text | password | email | checkbox.

(** Modelled from the spec: a field spec [{key, label, kind, required}]. *)
Record FieldSpec := {
  key : string;
  label : string;
  kind : FieldKind;
  required : bool
}.

(** Modelled from the spec: the static ServiceDescriptor; the backend's
    catalog is missing. *)
Record ServiceDescriptor := {
  name : string;
  category : Category;
  description : string;
  requiredFields : list FieldSpec
}.

(** Modelled from the spec: the [status] of a ServiceConfiguration,
    [{not_configured, disconnected, connected, error}]. *)
Inductive Status := not_configured | disconnected | connected | error.

(** Modelled from the spec: the cause classification of a failed
    connectivity test, [{auth, network, timeout, unknown}]. *)
Inductive Cause := auth | network | timeout | unknown.

(** Modelled from the spec: the verdict the injected ConnectivityChecker
    comes back with, a success or a failure with its cause. *)
Inductive Verdict := Reachable | Unreachable (cause : Cause).

(** Modelled from the spec: the error taxonomy of section 7, without
    PersistenceError (writing the store is taken to succeed). *)
Inductive RegistryError :=
  | ValidationError (missing : list string)
  | NotConfiguredError
  | ConnectivityError (cause : Cause)
  | UnknownServiceError.

(** Modelled from the spec: what an operation of the registry reports to
    its caller, success or one of the errors. *)
Inductive Outcome := Success | Failure (e : RegistryError).

Global Instance Category_eq_dec : EqDecision Category.
Proof. solve_decision. Defined.

Global Instance Status_eq_dec : EqDecision Status.
Proof. solve_decision. Defined.

Section registry.

(** The symmetric scheme with its process-held key: plaintext to
    ciphertext.  Nothing is assumed about it. *)
Context {Cipher : Type} (encrypt : string → Cipher).

(** The compiled-in catalog. *)
Context (catalog : list ServiceDescriptor).

(** Modelled from the spec: the persisted ServiceConfiguration, one record
    per service, whose secret fields hold encrypted values; the backend's
    store is missing. *)
Record ServiceConfiguration := {
  service : string;
  secretFields : gmap string Cipher;
  status : Status;
  lastTestedAt : option nat
}.

(** Modelled from the spec: the persisted state, one record per service,
    keyed by service name. *)
Local Abbreviation Store := (gmap string ServiceConfiguration).

(** Modelled from the spec: the descriptor a service name refers to, if
    the catalog knows it. *)
Definition descriptor (svc : string) : option ServiceDescriptor :=
  List.find (λ d, bool_decide (name d = svc)) catalog.

(** Modelled from the spec: a field is present and non-empty. *)
Definition present (fields : gmap string string) (k : string) : bool :=
  match fields !! k with
  | Some value => bool_decide (value ≠ "")
  | None => false
  end.

(** Modelled from the spec: the keys of the [required] fields of a
    descriptor that the given mapping leaves absent or empty, in the
    descriptor's order. *)
Definition missingFields (d : ServiceDescriptor) (fields : gmap string string)
    : list string :=
  key <$> filter (λ f, required f = true ∧ present fields (key f) = false)
                 (requiredFields d).

(** Modelled from the spec: the status of a service, [not_configured] when
    it has no ServiceConfiguration. *)
Definition statusOf (store : Store) (svc : string) : Status :=
  match store !! svc with
  | Some cfg => status cfg
  | None => not_configured
  end.

(** Modelled from the spec: [getStatus()], the status of every descriptor
    of the catalog; the backend's status handler is missing. *)
Definition getStatus (store : Store) : list (string * Status) :=
  (λ d, (name d, statusOf store (name d))) <$> catalog.

(** Modelled from the spec: [configure(service, fields)]; the backend's
    configure handler is missing.  An unknown service is rejected before
    anything else; a required field absent or empty fails with
    ValidationError naming the missing fields; otherwise every field value
    is encrypted on its own and the record replaces any prior one, with
    status [disconnected]. *)
Definition configure (store : Store) (svc : string)
    (fields : gmap string string) : Outcome * Store :=
  match descriptor svc with
  | None => (Failure UnknownServiceError, store)
  | Some d =>
      match missingFields d fields with
      | [] =>
          (Success,
           <[svc := {| service := svc;
                       secretFields := encrypt <$> fields;
                       status := disconnected;
                       lastTestedAt := None |}]> store)
      | missing => (Failure (ValidationError missing), store)
      end
  end.

(** Modelled from the spec: [testConnection(service)] with the verdict of
    the injected checker and the current time; no backend handler for it is
    among the sources.  Without a configuration it fails with
    NotConfiguredError; a success sets [connected] and the time of the
    test, a failure sets [error] and reports the cause. *)
Definition testConnection (store : Store) (svc : string) (verdict : Verdict)
    (now : nat) : Outcome * Store :=
  match store !! svc with
  | None => (Failure NotConfiguredError, store)
  | Some cfg =>
      match verdict with
      | Reachable =>
          (Success,
           <[svc := {| service := service cfg;
                       secretFields := secretFields cfg;
                       status := connected;
                       lastTestedAt := Some now |}]> store)
      | Unreachable cause =>
          (Failure (ConnectivityError cause),
           <[svc := {| service := service cfg;
                       secretFields := secretFields cfg;
                       status := error;
                       lastTestedAt := lastTestedAt cfg |}]> store)
      end
  end.

(** Modelled from the spec: [removeConfiguration(service)], deleting the
    persisted record; nothing among the sources removes a configuration. *)
Definition removeConfiguration (store : Store) (svc : string)
    : Outcome * Store :=
  (Success, delete svc store).

(** Modelled from the spec: the operations of the registry that write the
    store. *)
Inductive Op :=
  | Configure (svc : string) (fields : gmap string string)
  | TestConnection (svc : string) (verdict : Verdict) (now : nat)
  | RemoveConfiguration (svc : string).

(** Modelled from the spec: one operation applied to the store. *)
Definition step (store : Store) (op : Op) : Outcome * Store :=
  match op with
  | Configure svc fields => configure store svc fields
  | TestConnection svc verdict now => testConnection store svc verdict now
  | RemoveConfiguration svc => removeConfiguration store svc
  end.

(** Modelled from the spec: a sequence of operations, with the outcome of
    each. *)
Fixpoint run (store : Store) (ops : list Op) : list Outcome * Store :=
  match ops with
  | [] => ([], store)
  | op :: rest =>
      let '(outcome, store1) := step store op in
      let '(outcomes, store2) := run store1 rest in
      (outcome :: outcomes, store2)
  end.

End registry.

Arguments ServiceConfiguration : clear implicits.

(** A stand-in scheme for running the registry on examples: a ciphertext
    is a sealed box around the plaintext. *)
Inductive Sealed := Seal (plaintext : string).

(** The request body [{service, apiKey, additionalConfig}] as the flat
    mapping field-key to value that [configure] takes. *)
Definition fields_of (body : Settings.APIConfiguration) : gmap string string :=
  <["apiKey" := Settings.cfg_apiKey body]> (Settings.cfg_additionalConfig body).

(** The category a key of [serviceCategories] stands for. *)
Definition category_of (c : string) : Category :=
  if decide (c = "ai_services") then ai_services
  else if decide (c = "social_media") then social_media
  else if decide (c = "analytics") then analytics
  else if decide (c = "book_platforms") then book_platforms
  else if decide (c = "email_marketing") then email_marketing
  else author_settings.

(** The kind of a field from its optional [type]; text when absent. *)
Definition kind_of (t : option string) : FieldKind :=
  if decide (t = Some "password") then password
  else if decide (t = Some "email") then email
  else if decide (t = Some "checkbox") then checkbox
  else text.

(** A field of [renderAdditionalConfigFields] as a field spec; an absent
    [required] is false. *)
Definition field_spec (f : Settings.Field) : FieldSpec :=
  {| key := Settings.key f;
     label := Settings.label f;
     kind := kind_of (Settings.type f);
     required := default false (Settings.required f) |}.

(** Modelled from the spec: the primary [apiKey] field every descriptor
    has unless the service is fields-only. *)
Definition primary_field : FieldSpec :=
  {| key := "apiKey"; label := "API Key"; kind := password; required := true |}.

(** Modelled from the spec: the catalog of ServiceDescriptors.  The
    services and their categories are those of [serviceCategories], the
    field lists those of [renderAdditionalConfigFields], after the primary
    [apiKey] field, which the services of [author_settings] (fields-only)
    do not have. *)
Definition source_catalog : list ServiceDescriptor :=
  mjoin ((λ '(c, info),
            (λ '(svc, descr),
               {| name := svc;
                  category := category_of c;
                  description := descr;
                  requiredFields :=
                    (if decide (category_of c = author_settings) then []
                     else [primary_field])
                    ++ (field_spec <$> Settings.additionalConfigFields svc) |})
            <$> Settings.cat_services info)
         <$> Settings.serviceCategories).

(** The fields of the specification's scenario for [twitter]. *)
Definition twitter_fields : gmap string string :=
  list_to_map [ ("apiKey", "k"); ("api_secret", "s");
                ("access_token", "t"); ("access_secret", "u") ].

(** The store of that scenario once [twitter] has been configured and then
    tested with a checker that succeeds. *)
Definition twitter_connected : gmap string (ServiceConfiguration Sealed) :=
  (run Seal source_catalog ∅
       [ Configure "twitter" twitter_fields;
         TestConnection "twitter" Reachable 1 ]).2.

End Registry.

(** ** Properties of [services/config.ts] *)

Module ConfigFacts.
Import Config.

Lemma API_CONFIG_keys env : (API_CONFIG env).*1 = service_keys.
Proof. reflexivity. Qed.

Lemma service_keys_NoDup : NoDup service_keys.
Proof. apply (bool_decide_unpack _). by vm_compute. Qed.

Lemma get_Some_elem {A} key (entries : list (string * A)) v :
  get key entries = Some v → (key, v) ∈ entries.
Proof.
  induction entries as [|[k w] rest IH]; simpl; [done|].
  case_decide as Hk.
  - intros [= ->]. subst. left.
  - intros H. right. auto.
Qed.

Lemma get_is_Some {A} key (entries : list (string * A)) :
  key ∈ entries.*1 → is_Some (get key entries).
Proof.
  induction entries as [|[k w] rest IH]; simpl.
  - intros H. by apply elem_of_nil in H.
  - intros H. case_decide as Hk; [eauto|].
    apply elem_of_cons in H as [H|H]; [congruence|auto].
Qed.

Lemma some_nonempty_spec config :
  some_nonempty config = true ↔ ∃ value, value ∈ values config ∧ value ≠ "".
Proof.
  unfold some_nonempty. rewrite existsb_exists. split.
  - intros (v & Hin & Hv). exists v. split; [by apply list_elem_of_In|].
    by apply bool_decide_eq_true in Hv.
  - intros (v & Hin & Hv). exists v. split; [by apply list_elem_of_In|].
    by apply bool_decide_eq_true.
Qed.

Lemma some_nonempty_false config :
  some_nonempty config = false ↔ ∀ value, value ∈ values config → value = "".
Proof.
  rewrite <- not_true_iff_false, some_nonempty_spec. split.
  - intros Hno v Hv. destruct (decide (v = "")); [done|]. destruct Hno; eauto.
  - intros Hall (v & Hv & Hne). auto.
Qed.

(** The fold of [getMissingConfigs] is a filter of the entries, whatever was
    pushed before. *)
Lemma getMissingConfigs_fold entries acc :
  foldl getMissingConfigs_step acc entries
  = acc ++ ((filter (λ e, some_nonempty e.2 = false) entries).*1).
Proof.
  revert acc. induction entries as [|[s c] rest IH]; intros acc; simpl.
  - by rewrite app_nil_r.
  - rewrite IH. rewrite filter_cons. simpl.
    destruct (some_nonempty c) eqn:Hc; simpl.
    + destruct (decide (true = false)); [done|]. done.
    + destruct (decide (false = false)); [|done]. by rewrite <- app_assoc.
Qed.

Lemma getMissingConfigs_filter env :
  getMissingConfigs env
  = (filter (λ e, some_nonempty e.2 = false) (API_CONFIG env)).*1.
Proof. unfold getMissingConfigs. by rewrite getMissingConfigs_fold. Qed.

Lemma filter_ext_elem {A} (P1 P2 : A → Prop)
    `{!∀ x, Decision (P1 x), !∀ x, Decision (P2 x)} (l : list A) :
  (∀ x, x ∈ l → (P1 x ↔ P2 x)) → filter P1 l = filter P2 l.
Proof.
  induction l as [|a l IH]; intros Hiff; [done|].
  rewrite !filter_cons.
  assert (P1 a ↔ P2 a) as Ha by (apply Hiff; left).
  rewrite IH by (intros x Hx; apply Hiff; by right).
  destruct (decide (P1 a)), (decide (P2 a)); tauto.
Qed.

Lemma isConfigured_configured_in env service :
  isConfigured env service = configured_in (API_CONFIG env) service.
Proof. reflexivity. Qed.

Lemma get_tail_ne {A} k0 (c0 : A) rest k :
  k0 ∉ rest.*1 → k ∈ rest.*1 → get k ((k0, c0) :: rest) = get k rest.
Proof.
  intros Hk0 Hk. simpl. case_decide; [subst; contradiction|done].
Qed.

(** With distinct keys, filtering the entries by their values and filtering
    the keys by the lookup agree. *)
Lemma filter_entries_keys (entries : list (string * ServiceConfig)) :
  NoDup entries.*1 →
  (filter (λ e, some_nonempty e.2 = false) entries).*1
  = filter (λ k, configured_in entries k = false) entries.*1.
Proof.
  induction entries as [|[k0 c0] rest IH]; intros Hnd; [done|].
  apply NoDup_cons in Hnd as [Hk0 Hnd].
  rewrite fmap_cons, !filter_cons. cbn [fst snd].
  assert (configured_in ((k0, c0) :: rest) k0 = some_nonempty c0) as Hhd.
  { unfold configured_in. simpl. by rewrite decide_True. }
  rewrite Hhd.
  assert (filter (λ k, configured_in ((k0, c0) :: rest) k = false) rest.*1
          = filter (λ k, configured_in rest k = false) rest.*1) as Htl.
  { apply filter_ext_elem. intros k Hk. unfold configured_in.
    by rewrite get_tail_ne. }
  rewrite Htl, <- IH by done.
  destruct (decide (some_nonempty c0 = false)); done.
Qed.

Lemma getMissingConfigs_keys env :
  getMissingConfigs env
  = filter (λ service, isConfigured env service = false) service_keys.
Proof.
  rewrite getMissingConfigs_filter, filter_entries_keys.
  - by rewrite API_CONFIG_keys.
  - rewrite API_CONFIG_keys. apply service_keys_NoDup.
Qed.

Lemma some_nonempty_cons field value (rest : ServiceConfig) :
  some_nonempty ((field, value) :: rest) = nonempty value || some_nonempty rest.
Proof. reflexivity. Qed.

Lemma get_here {A} key (v : A) rest : get key ((key, v) :: rest) = Some v.
Proof. simpl. by rewrite decide_True. Qed.

Lemma get_further {A} key k (v : A) rest :
  k ≠ key → get key ((k, v) :: rest) = get key rest.
Proof. intros. simpl. by rewrite decide_False. Qed.

Ltac find_entry :=
  unfold isConfigured, API_CONFIG;
  repeat (rewrite get_further by (by apply (bool_decide_unpack _)));
  rewrite get_here.

Ltac has_baseUrl :=
  find_entry; rewrite !some_nonempty_cons;
  by rewrite ?orb_true_r.

(** A service whose table entry has a [baseUrl] is reported as configured
    whatever the environment holds; only the two analytics entries, which
    have no [baseUrl], can be reported missing. *)
Lemma isConfigured_baseUrl env service :
  service ∈ service_keys →
  service ≠ "googleAnalytics" → service ≠ "facebookPixel" →
  isConfigured env service = true.
Proof.
  intros Hin Hga Hfp. unfold service_keys in Hin.
  repeat (apply elem_of_cons in Hin as [->|Hin];
          [first [done | has_baseUrl]|]).
  by apply elem_of_nil in Hin.
Qed.

(** ** Claims about [services/config.ts] *)

(** C9. For every service key of [API_CONFIG], [isConfigured service] is
    [true] exactly when some field value of that service's config object is
    a non-empty string.  In particular [twitter] with only its [apiKey] set
    (the three other credentials empty) is reported as configured. *)
Theorem C9_isConfigured_iff_some_value_nonempty (env : Env) (service : string) :
  service ∈ service_keys →
  (∃ config, get service (API_CONFIG env) = Some config ∧
     (isConfigured env service = true ↔
        ∃ field value, (field, value) ∈ config ∧ value ≠ ""))
  ∧ isConfigured {[ "REACT_APP_TWITTER_API_KEY" := "k" ]} "twitter" = true.
Proof.
  intros Hin. split; [|reflexivity].
  destruct (get_is_Some service (API_CONFIG env)) as [config Hget].
  { by rewrite API_CONFIG_keys. }
  exists config. split; [done|].
  unfold isConfigured. rewrite Hget, some_nonempty_spec. unfold values.
  split.
  - intros (v & Hv & Hne). apply list_elem_of_fmap in Hv as ([f v'] & -> & Hv).
    by exists f, v'.
  - intros (f & v & Hv & Hne). exists v. split; [|done].
    apply list_elem_of_fmap. by exists (f, v).
Qed.

Lemma C9_witness :
  ("twitter" ∈ service_keys) ∧
  ((∃ config, get "twitter" (API_CONFIG ∅) = Some config ∧
     (isConfigured ∅ "twitter" = true ↔
        ∃ field value, (field, value) ∈ config ∧ value ≠ ""))
   ∧ isConfigured {[ "REACT_APP_TWITTER_API_KEY" := "k" ]} "twitter" = true).
Proof.
  assert ("twitter" ∈ service_keys) as Hin.
  { apply (bool_decide_unpack _). by vm_compute. }
  split; [exact Hin|].
  exact (C9_isConfigured_iff_some_value_nonempty ∅ "twitter" Hin).
Defined.

(** C10. A service key of [API_CONFIG] is in the list returned by
    [getMissingConfigs ()] exactly when [isConfigured] is [false] for it,
    that is when every field value of its config object is the empty
    string; the list holds each such service once, in declaration order: it
    is the declared key list filtered by [isConfigured service = false]. *)
Theorem C10_getMissingConfigs_iff_not_configured (env : Env) (service : string) :
  service ∈ service_keys →
  (service ∈ getMissingConfigs env ↔ isConfigured env service = false)
  ∧ (isConfigured env service = false ↔
       ∀ config, get service (API_CONFIG env) = Some config →
                 ∀ value, value ∈ values config → value = "")
  ∧ NoDup (getMissingConfigs env)
  ∧ getMissingConfigs env
    = filter (λ s, isConfigured env s = false) service_keys
  ∧ getMissingConfigs env `sublist_of` service_keys.
Proof.
  intros Hin. rewrite getMissingConfigs_keys. repeat split.
  - intros H. by apply list_elem_of_filter in H as [H _].
  - intros H. by apply list_elem_of_filter.
  - intros H config Hget. apply some_nonempty_false.
    unfold isConfigured in H. by rewrite Hget in H.
  - intros H. destruct (get_is_Some service (API_CONFIG env)) as [config Hget].
    { by rewrite API_CONFIG_keys. }
    unfold isConfigured. rewrite Hget. apply some_nonempty_false. eauto.
  - apply NoDup_filter, service_keys_NoDup.
  - apply sublist_filter.
Qed.

Lemma C10_witness :
  ("googleAnalytics" ∈ service_keys) ∧
  ("googleAnalytics" ∈ getMissingConfigs ∅) ∧
  getMissingConfigs ∅ = ["googleAnalytics"; "facebookPixel"].
Proof.
  assert ("googleAnalytics" ∈ service_keys) as Hin.
  { apply (bool_decide_unpack _). by vm_compute. }
  split; [exact Hin|].
  destruct (C10_getMissingConfigs_iff_not_configured ∅ "googleAnalytics" Hin)
    as (Hiff & _ & _ & Heq & _).
  split; [apply Hiff; reflexivity|].
  rewrite Heq. reflexivity.
Defined.

End ConfigFacts.

(** ** Properties of [components/APISettings.tsx] *)

Module SettingsFacts.
Import Settings.

Lemma displayed_status_cases s :
  displayed_status s = "connected" ∧ ss_status s = "ready"
  ∨ displayed_status s = "error" ∧ ss_status s ≠ "ready" ∧ ss_configured s = true
  ∨ displayed_status s = "disconnected" ∧ ss_status s ≠ "ready"
    ∧ ss_configured s = false.
Proof.
  unfold displayed_status. case_decide; [by left|].
  destruct (ss_configured s); [right; by left|right; by right].
Qed.

Lemma serviceStatus_absent data category serviceName :
  data !! category ≫= (λ services, services !! serviceName) = None →
  serviceStatus data category serviceName
  = {| ss_enabled := false; ss_configured := false;
       ss_status := "not_configured" |}.
Proof. intros H. unfold serviceStatus. by rewrite H. Qed.

Lemma serviceStatus_reported data category serviceName reported :
  data !! category ≫= (λ services, services !! serviceName) = Some reported →
  serviceStatus data category serviceName = reported.
Proof. intros H. unfold serviceStatus. by rewrite H. Qed.

Lemma servicesArray_names data : name <$> servicesArray data = descriptor_names.
Proof. reflexivity. Qed.

Lemma servicesArray_entry data category info service :
  (category, info) ∈ serviceCategories →
  service ∈ cat_services info →
  service_entry data category service ∈ servicesArray data.
Proof.
  intros Hc Hs. unfold servicesArray. apply list_elem_of_join.
  exists (service_entry data category <$> cat_services info). split.
  - by apply list_elem_of_fmap_2.
  - apply list_elem_of_fmap. by exists (category, info).
Qed.

Lemma displayed_status_literal s :
  displayed_status s ∈ ["connected"; "error"; "disconnected"].
Proof.
  unfold displayed_status. case_decide; [left|].
  destruct (ss_configured s); [right; left|right; right; left].
Qed.

Lemma servicesArray_status data s :
  s ∈ servicesArray data →
  status s ∈ ["connected"; "error"; "disconnected"].
Proof.
  unfold servicesArray. intros Hin.
  apply list_elem_of_join in Hin as (l & Hs & Hl).
  apply list_elem_of_fmap in Hl as ([category info] & -> & _).
  apply list_elem_of_fmap in Hs as ([serviceName description] & -> & _).
  apply displayed_status_literal.
Qed.

(** What [loadAPIStatus] leaves, by the three ways the request can end. *)
Lemma loadAPIStatus_success data st :
  services (state_after
    (loadAPIStatus (Resolved {| sd_success := true; sd_data := data |})) st)
  = servicesArray data.
Proof. reflexivity. Qed.

Lemma loadAPIStatus_refused data st :
  services (state_after
    (loadAPIStatus (Resolved {| sd_success := false; sd_data := data |})) st)
  = services st.
Proof. reflexivity. Qed.

Lemma loadAPIStatus_threw reason st :
  services (state_after (loadAPIStatus (Rejected reason)) st) = services st.
Proof. reflexivity. Qed.

(** Loading statuses never posts a configuration and leaves the dialog and
    what was typed into it alone. *)
Lemma loadAPIStatus_reads_only response st :
  (∀ body, PostConfigure body ∉ trace_of (loadAPIStatus response) st)
  ∧ configDialog (state_after (loadAPIStatus response) st) = configDialog st
  ∧ apiKey (state_after (loadAPIStatus response) st) = apiKey st
  ∧ additionalConfig (state_after (loadAPIStatus response) st)
    = additionalConfig st.
Proof.
  destruct response as [[[] data]|reason]; (split; [|done]);
    intros body Hin; cbn in Hin;
    repeat (apply elem_of_cons in Hin as [Hin|Hin]; [discriminate|]);
    by apply elem_of_nil in Hin.
Qed.

(** [handleTestConnection] writes the snackbar and the [testingConnection]
    flag and nothing else. *)
Lemma handleTestConnection_state serviceName timer st :
  state_after (handleTestConnection serviceName timer) st
  = {| services := services st;
       loading := loading st;
       configDialog := configDialog st;
       apiKey := apiKey st;
       showApiKey := showApiKey st;
       additionalConfig := additionalConfig st;
       snackbar :=
         {| snack_open := true;
            message :=
              match timer with
              | Resolved _ => "Connection to " +:+ serviceName +:+ " successful"
              | Rejected _ => "Connection test failed for " +:+ serviceName
              end;
            severity :=
              match timer with
              | Resolved _ => SevSuccess
              | Rejected _ => SevError
              end |};
       testingConnection := false |}.
Proof. by destruct timer. Qed.

Lemma handleTestConnection_trace serviceName timer st :
  trace_of (handleTestConnection serviceName timer) st
  = [ Shown ("Testing connection to " +:+ serviceName +:+ "...") SevInfo;
      Sleep 2000;
      match timer with
      | Resolved _ =>
          Shown ("Connection to " +:+ serviceName +:+ " successful") SevSuccess
      | Rejected _ =>
          Shown ("Connection test failed for " +:+ serviceName) SevError
      end ].
Proof. by destruct timer. Qed.

Lemma chipStatus_services st1 st2 serviceName :
  services st1 = services st2 →
  chipStatus st1 serviceName = chipStatus st2 serviceName.
Proof. unfold chipStatus, find_service. by intros ->. Qed.

Lemma testOffered_connected st serviceName :
  testOffered st serviceName = true → chipStatus st serviceName = "connected".
Proof.
  unfold testOffered, chipStatus. destruct (find_service st serviceName); [|done].
  intros H%bool_decide_eq_true. rewrite H. done.
Qed.

(** The events of a save: the request first, whatever was typed, then what
    the response calls for. *)
Lemma handleSaveConfiguration_trace response reload st :
  trace_of (handleSaveConfiguration response reload) st
  = PostConfigure {| cfg_service := dlg_service (configDialog st);
                     cfg_apiKey := apiKey st;
                     cfg_additionalConfig := additionalConfig st |}
    :: match response with
       | Resolved data =>
           if cd_success data then
             Shown (dlg_service (configDialog st) +:+ " configured successfully")
                   SevSuccess
             :: load_events reload
           else [Shown (configuration_failed (cd_error data)) SevError]
       | Rejected reason =>
           [ ConsoleError "Error configuring service:" reason;
             Shown "Error configuring service" SevError ]
       end.
Proof.
  destruct response as [[[] err]|reason]; [|done|done].
  by destruct reload as [[[] data]|reason].
Qed.

(** After a successful save the listed services are those of the status
    reload, when that reload reports success. *)
Lemma handleSaveConfiguration_succeeded err data st :
  let run :=
    handleSaveConfiguration
      (Resolved {| cd_success := true; cd_error := err |})
      (Resolved {| sd_success := true; sd_data := data |}) in
  services (state_after run st) = servicesArray data
  ∧ configDialog (state_after run st) = closed_dialog
  ∧ trace_of run st
    = [ PostConfigure {| cfg_service := dlg_service (configDialog st);
                         cfg_apiKey := apiKey st;
                         cfg_additionalConfig := additionalConfig st |};
        Shown (dlg_service (configDialog st) +:+ " configured successfully")
              SevSuccess;
        GetStatus ].
Proof. done. Qed.

(** The Save button is enabled exactly when an API key is typed and no save
    is in flight; the additional fields play no part. *)
Lemma saveDisabled_spec st :
  saveDisabled st = false ↔ apiKey st ≠ "" ∧ testingConnection st = false.
Proof.
  unfold saveDisabled. rewrite orb_false_iff, bool_decide_eq_false. done.
Qed.

(** With an empty API key the Save button is disabled. *)
Lemma saveDisabled_empty_key st : apiKey st = "" → saveDisabled st = true.
Proof. intros H. unfold saveDisabled. by rewrite H. Qed.

(** ** Claims about the settings component *)

(** C2, as the code has it.  After a successful configure the component
    reloads the statuses, and the status it then holds for a service is the
    one the status endpoint reports: connected when it reports ['ready'],
    error when it reports the service configured but not ready, and
    disconnected otherwise.  [handleTestConnection] changes no status, so a
    status turns connected by a status load and not by a connection test. *)
Theorem C2_status_after_save_is_the_reported_one
    (err : option string) (data : gmap string (gmap string ServiceStatus))
    (st : State) :
  let run :=
    handleSaveConfiguration
      (Resolved {| cd_success := true; cd_error := err |})
      (Resolved {| sd_success := true; sd_data := data |}) in
  services (state_after run st) = servicesArray data
  ∧ (∀ category info serviceName description,
       (category, info) ∈ serviceCategories →
       (serviceName, description) ∈ cat_services info →
       ∃ s, s ∈ services (state_after run st)
            ∧ name s = serviceName
            ∧ status s
              = displayed_status (serviceStatus data category serviceName))
  ∧ (∀ s, (displayed_status s = "connected" ↔ ss_status s = "ready")
          ∧ (displayed_status s = "error" ↔
               ss_status s ≠ "ready" ∧ ss_configured s = true)
          ∧ (displayed_status s = "disconnected" ↔
               ss_status s ≠ "ready" ∧ ss_configured s = false))
  ∧ (∀ serviceName timer st',
       services (state_after (handleTestConnection serviceName timer) st')
       = services st').
Proof.
  intros run. subst run. split; [done|]. split; [|split].
  - intros category info serviceName description Hc Hs.
    exists (service_entry data category (serviceName, description)).
    split; [|done].
    by apply (servicesArray_entry data category info (serviceName, description)).
  - intros s. unfold displayed_status.
    destruct (decide (ss_status s = "ready")) as [Hr|Hr];
      destruct (ss_configured s); repeat split;
      try done; try (by intros [? ?]); by intros [=].
  - intros serviceName timer st'. by rewrite handleTestConnection_state.
Qed.

(** C2 fails as stated: [twitter] is saved from the dialog; when the status
    reload reports it ['ready'] it is connected at once, with no connection
    test in between, and when the reload reports it configured but not
    ready it is in error; in neither case is it disconnected. *)
Lemma C2_counterexample :
  let st := dialog_with_key "twitter" "social_media" "k" (loaded ∅) in
  let reported (raw : string) : gmap string (gmap string ServiceStatus) :=
    {[ "social_media" :=
         {[ "twitter" := {| ss_enabled := true; ss_configured := true;
                            ss_status := raw |} ]} ]} in
  let run raw :=
    handleSaveConfiguration
      (Resolved {| cd_success := true; cd_error := None |})
      (Resolved {| sd_success := true; sd_data := reported raw |}) in
  chipStatus st "twitter" = "disconnected"
  ∧ chipStatus (state_after (run "ready") st) "twitter" = "connected"
  ∧ trace_of (run "ready") st
    = [ PostConfigure {| cfg_service := "twitter"; cfg_apiKey := "k";
                         cfg_additionalConfig := ∅ |};
        Shown "twitter configured successfully" SevSuccess;
        GetStatus ]
  ∧ chipStatus (state_after (run "configured") st) "twitter" = "error".
Proof. repeat split. Qed.

(** C3, as the code has it.  For every service name, whether or not a
    configuration exists for it, [handleTestConnection] changes no status
    and, once the simulated delay is over, reports that the connection is
    successful; it sends no request and never fails for want of a
    configuration.  The component offers the test only for a service shown
    as connected. *)
Theorem C3_handleTestConnection_reports_success
    (serviceName : string) (st : State) :
  let run := handleTestConnection serviceName (Resolved tt) in
  services (state_after run st) = services st
  ∧ chipStatus (state_after run st) serviceName = chipStatus st serviceName
  ∧ snackbar (state_after run st)
    = {| snack_open := true;
         message := "Connection to " +:+ serviceName +:+ " successful";
         severity := SevSuccess |}
  ∧ trace_of run st
    = [ Shown ("Testing connection to " +:+ serviceName +:+ "...") SevInfo;
        Sleep 2000;
        Shown ("Connection to " +:+ serviceName +:+ " successful") SevSuccess ]
  ∧ (testOffered st serviceName = true → chipStatus st serviceName = "connected").
Proof.
  intros run. subst run. rewrite handleTestConnection_state.
  repeat split. apply testOffered_connected.
Qed.

(** C3 fails as stated: the status response reports [tiktok] ['ready']
    and not configured.  The component shows it connected and offers the
    test; no configuration was ever posted; the test reports success, not
    an error. *)
Lemma C3_counterexample :
  let data : gmap string (gmap string ServiceStatus) :=
    {[ "social_media" :=
         {[ "tiktok" := {| ss_enabled := true; ss_configured := false;
                           ss_status := "ready" |} ]} ]} in
  let run := handleTestConnection "tiktok" (Resolved tt) in
  ∃ s, find_service (loaded data) "tiktok" = Some s
       ∧ configured s = false
       ∧ testOffered (loaded data) "tiktok" = true
       ∧ trace_of run (loaded data)
         = [ Shown "Testing connection to tiktok..." SevInfo;
             Sleep 2000;
             Shown "Connection to tiktok successful" SevSuccess ]
       ∧ snackbar (state_after run (loaded data))
         = {| snack_open := true;
              message := "Connection to tiktok successful";
              severity := SevSuccess |}.
Proof. eexists. split; [reflexivity|]. repeat split. Qed.

(** C4, as the code has it.  [handleTestConnection] makes one simulated
    attempt per call (a single two second delay, no request, no retry).
    When the delay completes it reports success; the [catch] branch reports
    a failure message that names the service and no cause.  Either way it
    writes only the snackbar and the [testingConnection] flag: no status
    becomes connected or error, and no time of test is recorded. *)
Theorem C4_handleTestConnection_single_attempt_no_status_change
    (serviceName : string) (timer : Awaited unit) (st : State) :
  let run := handleTestConnection serviceName timer in
  trace_of run st
    = [ Shown ("Testing connection to " +:+ serviceName +:+ "...") SevInfo;
        Sleep 2000;
        match timer with
        | Resolved _ =>
            Shown ("Connection to " +:+ serviceName +:+ " successful") SevSuccess
        | Rejected _ =>
            Shown ("Connection test failed for " +:+ serviceName) SevError
        end ]
  ∧ services (state_after run st) = services st
  ∧ chipStatus (state_after run st) serviceName = chipStatus st serviceName
  ∧ state_after run st
    = {| services := services st;
         loading := loading st;
         configDialog := configDialog st;
         apiKey := apiKey st;
         showApiKey := showApiKey st;
         additionalConfig := additionalConfig st;
         snackbar :=
           {| snack_open := true;
              message :=
                match timer with
                | Resolved _ =>
                    "Connection to " +:+ serviceName +:+ " successful"
                | Rejected _ => "Connection test failed for " +:+ serviceName
                end;
              severity :=
                match timer with
                | Resolved _ => SevSuccess
                | Rejected _ => SevError
                end |};
         testingConnection := false |}.
Proof.
  intros run. subst run.
  rewrite handleTestConnection_trace, handleTestConnection_state.
  repeat split.
Qed.

(** C4 fails as stated: [twitter] is reported ['ready'] and configured,
    so it is shown connected and the test is offered.  The test reports
    success without any request having been made, and leaves every cell of
    the component but the snackbar as it was: the entry of [twitter] is the
    same and nothing holds a time of test.  A second test changes nothing
    more. *)
Lemma C4_counterexample :
  let data : gmap string (gmap string ServiceStatus) :=
    {[ "social_media" :=
         {[ "twitter" := {| ss_enabled := true; ss_configured := true;
                            ss_status := "ready" |} ]} ]} in
  let st := loaded data in
  let run := handleTestConnection "twitter" (Resolved tt) in
  testOffered st "twitter" = true
  ∧ trace_of run st
    = [ Shown "Testing connection to twitter..." SevInfo;
        Sleep 2000;
        Shown "Connection to twitter successful" SevSuccess ]
  ∧ find_service (state_after run st) "twitter"
    = Some {| name := "twitter"; category := "social_media";
              description := "Twitter API v2"; status := "connected";
              enabled := true; configured := true |}
  ∧ state_after run st
    = {| services := services st;
         loading := false;
         configDialog := closed_dialog;
         apiKey := "";
         showApiKey := false;
         additionalConfig := ∅;
         snackbar :=
           {| snack_open := true;
              message := "Connection to twitter successful";
              severity := SevSuccess |};
         testingConnection := false |}
  ∧ state_after run (state_after run st) = state_after run st.
Proof. repeat split. Qed.

(** C6, as the code has it.  [loadAPIStatus] reads the statuses with one
    GET and posts nothing, whatever comes back.  When the response reports
    success it stores one entry for every service of the catalog.  For a
    service the response does not list, the record looked up defaults to
    status [not_configured] with [enabled] and [configured] false, and the
    entry stored for it carries the status ['disconnected']. *)
Theorem C6_loadAPIStatus_entry_per_descriptor_default_disconnected
    (data : gmap string (gmap string ServiceStatus)) (st : State) :
  let run := loadAPIStatus (Resolved {| sd_success := true; sd_data := data |}) in
  trace_of run st = [GetStatus]
  ∧ (∀ response body, PostConfigure body ∉ trace_of (loadAPIStatus response) st)
  ∧ name <$> services (state_after run st) = descriptor_names
  ∧ (∀ category info serviceName description,
       (category, info) ∈ serviceCategories →
       (serviceName, description) ∈ cat_services info →
       {| name := serviceName;
          category := category;
          description := description;
          status := displayed_status (serviceStatus data category serviceName);
          enabled := ss_enabled (serviceStatus data category serviceName);
          configured := ss_configured (serviceStatus data category serviceName)
       |} ∈ services (state_after run st))
  ∧ (∀ category serviceName,
       data !! category ≫= (λ listed, listed !! serviceName) = None →
       ss_status (serviceStatus data category serviceName) = "not_configured"
       ∧ ss_enabled (serviceStatus data category serviceName) = false
       ∧ ss_configured (serviceStatus data category serviceName) = false
       ∧ displayed_status (serviceStatus data category serviceName)
         = "disconnected").
Proof.
  intros run. subst run. rewrite loadAPIStatus_success.
  split; [done|]. split; [intros; apply loadAPIStatus_reads_only|].
  split; [apply servicesArray_names|]. split.
  - intros category info serviceName description Hc Hs.
    exact (servicesArray_entry data category info (serviceName, description)
             Hc Hs).
  - intros category serviceName Habsent.
    by rewrite (serviceStatus_absent _ _ _ Habsent).
Qed.

(** C6 fails as stated: before any configuration (the status response lists
    no service) the entry returned for [anthropic] has status
    ['disconnected'], which is not [not_configured]. *)
Lemma C6_counterexample :
  ∃ s, find_service (loaded ∅) "anthropic" = Some s
       ∧ configured s = false
       ∧ status s = "disconnected"
       ∧ status s ≠ "not_configured".
Proof. eexists. split; [reflexivity|]. repeat split. by vm_compute. Qed.

End SettingsFacts.

(** ** Properties of the credential registry *)

Module RegistryFacts.
Import Registry.

Section registry_facts.

Context {Cipher : Type} (encrypt : string → Cipher).
Context (catalog : list ServiceDescriptor).

Local Abbreviation Store := (gmap string (ServiceConfiguration Cipher)).

Lemma present_false fields k :
  present fields k = false ↔ fields !! k = None ∨ fields !! k = Some "".
Proof.
  unfold present. destruct (fields !! k) as [v|]; [|split; [by left|done]].
  rewrite bool_decide_eq_false. split.
  - intros Hv. right. f_equal. by destruct (decide (v = "")).
  - intros [|[= ->]]; [done|]. by intros [].
Qed.

Lemma present_true fields k :
  present fields k = true ↔ ∃ value, fields !! k = Some value ∧ value ≠ "".
Proof.
  unfold present. destruct (fields !! k) as [v|].
  - rewrite bool_decide_eq_true. split; [by exists v|].
    by intros (? & [= <-] & ?).
  - split; [done|]. by intros (? & ? & _).
Qed.

Lemma elem_of_missingFields d fields k :
  k ∈ missingFields d fields ↔
  ∃ f, f ∈ requiredFields d ∧ key f = k ∧ required f = true
       ∧ present fields (key f) = false.
Proof.
  unfold missingFields. rewrite list_elem_of_fmap. split.
  - intros (f & -> & Hf). apply list_elem_of_filter in Hf as [[Hreq Hp] Hf].
    by exists f.
  - intros (f & Hf & <- & Hreq & Hp). exists f. split; [done|].
    by apply list_elem_of_filter.
Qed.

Lemma missingFields_nil d fields :
  missingFields d fields = [] ↔
  ∀ f, f ∈ requiredFields d → required f = true →
       present fields (key f) = true.
Proof.
  split.
  - intros Hnil f Hf Hreq. destruct (present fields (key f)) eqn:Hp; [done|].
    assert (key f ∈ missingFields d fields) as Hin
      by (apply elem_of_missingFields; eauto).
    rewrite Hnil in Hin. by apply elem_of_nil in Hin.
  - intros Hall. destruct (missingFields d fields) as [|k rest] eqn:Hm; [done|].
    assert (k ∈ missingFields d fields) as Hin by (rewrite Hm; left).
    apply elem_of_missingFields in Hin as (f & Hf & _ & Hreq & Hp).
    rewrite (Hall f Hf Hreq) in Hp. done.
Qed.

(** Only the declared keys of a descriptor matter to what is missing. *)
Lemma missingFields_ext d fields1 fields2 :
  (∀ f, f ∈ requiredFields d →
        present fields1 (key f) = present fields2 (key f)) →
  missingFields d fields1 = missingFields d fields2.
Proof.
  intros Hsame. unfold missingFields. f_equal.
  apply ConfigFacts.filter_ext_elem. intros f Hf. by rewrite (Hsame f Hf).
Qed.

Lemma configure_known (store : Store) svc d fields :
  descriptor catalog svc = Some d →
  configure encrypt catalog store svc fields
  = match missingFields d fields with
    | [] =>
        (Success,
         <[svc := {| service := svc;
                     secretFields := encrypt <$> fields;
                     status := disconnected;
                     lastTestedAt := None |}]> store)
    | missing => (Failure (ValidationError missing), store)
    end.
Proof. intros Hd. unfold configure. by rewrite Hd. Qed.

Lemma configure_success_inv (store store' : Store) svc fields :
  configure encrypt catalog store svc fields = (Success, store') →
  ∃ d, descriptor catalog svc = Some d ∧ missingFields d fields = []
       ∧ store' = <[svc := {| service := svc;
                              secretFields := encrypt <$> fields;
                              status := disconnected;
                              lastTestedAt := None |}]> store.
Proof.
  unfold configure. destruct (descriptor catalog svc) as [d|]; [|done].
  destruct (missingFields d fields) eqn:Hm; [|done].
  intros [= <-]. eauto.
Qed.

(** A configure that does not succeed writes nothing. *)
Lemma configure_failure_store (store : Store) svc fields e :
  (configure encrypt catalog store svc fields).1 = Failure e →
  (configure encrypt catalog store svc fields).2 = store.
Proof.
  unfold configure. destruct (descriptor catalog svc) as [d|]; [|done].
  by destruct (missingFields d fields).
Qed.

Lemma statusOf_insert (store : Store) svc cfg other :
  statusOf (<[svc := cfg]> store) other
  = if decide (svc = other) then status cfg else statusOf store other.
Proof. unfold statusOf. rewrite lookup_insert. by case_decide. Qed.

Lemma statusOf_delete (store : Store) svc other :
  statusOf (delete svc store) other
  = if decide (svc = other) then not_configured else statusOf store other.
Proof. unfold statusOf. rewrite lookup_delete. by case_decide. Qed.

Lemma getStatus_ext (store1 store2 : Store) :
  (∀ svc, statusOf store1 svc = statusOf store2 svc) →
  getStatus catalog store1 = getStatus catalog store2.
Proof.
  intros Hsame. unfold getStatus. apply list_fmap_ext.
  intros _ d _. by rewrite Hsame.
Qed.

Lemma elem_of_getStatus (store : Store) svc st :
  (svc, st) ∈ getStatus catalog store ↔
  (∃ d, d ∈ catalog ∧ name d = svc) ∧ st = statusOf store svc.
Proof.
  unfold getStatus. rewrite list_elem_of_fmap. split.
  - intros (d & [= -> ->] & Hd). eauto.
  - intros [(d & Hd & <-) ->]. eauto.
Qed.

Lemma descriptor_Some svc d :
  descriptor catalog svc = Some d → d ∈ catalog ∧ name d = svc.
Proof.
  unfold descriptor. intros H. apply find_some in H as [Hin Hname].
  split; [by apply list_elem_of_In|]. by apply bool_decide_eq_true in Hname.
Qed.

(** The one step that can turn a status into [connected]. *)
Lemma step_connected (store store' : Store) op outcome svc :
  step encrypt catalog store op = (outcome, store') →
  statusOf store' svc = connected →
  statusOf store svc ≠ connected →
  ∃ now, op = TestConnection svc Reachable now ∧ outcome = Success
         ∧ is_Some (store !! svc).
Proof.
  destruct op as [s fields|s verdict now|s]; simpl.
  - unfold configure. destruct (descriptor catalog s) as [d|];
      [|intros [= <- <-]; congruence].
    destruct (missingFields d fields); [|intros [= <- <-]; congruence].
    intros [= <- <-]. rewrite statusOf_insert. case_decide; [done|congruence].
  - unfold testConnection. destruct (store !! s) as [cfg|] eqn:Hs;
      [|intros [= <- <-]; congruence].
    destruct verdict as [|cause]; intros [= <- <-]; rewrite statusOf_insert;
      case_decide; subst; try congruence; try done.
    intros _ _. exists now. by rewrite Hs.
  - unfold removeConfiguration. intros [= <- <-]. rewrite statusOf_delete.
    case_decide; [done|congruence].
Qed.

(** *** What the registry of the specification does on [configure] *)

(** A successful [configure] leaves the service [disconnected], which is
    what [getStatus] reports for it; from there on a status turns
    [connected] only by a [testConnection] that succeeds. *)
Lemma configure_sets_disconnected
    (store store' : Store) (svc : string) (fields : gmap string string) :
  configure encrypt catalog store svc fields = (Success, store') →
  statusOf store' svc = disconnected
  ∧ (svc, disconnected) ∈ getStatus catalog store'
  ∧ (∀ op outcome (store'' : Store) s,
       step encrypt catalog store' op = (outcome, store'') →
       statusOf store'' s = connected →
       statusOf store' s ≠ connected →
       ∃ now, op = TestConnection s Reachable now ∧ outcome = Success).
Proof.
  intros Hc. apply configure_success_inv in Hc as (d & Hd & _ & ->).
  split; [by rewrite statusOf_insert, decide_True|]. split.
  - apply elem_of_getStatus. split; [exists d; by apply descriptor_Some|].
    by rewrite statusOf_insert, decide_True.
  - intros op outcome store'' s Hstep Hafter Hbefore.
    destruct (step_connected _ _ _ _ _ Hstep Hafter Hbefore)
      as (now & -> & -> & _).
    eauto.
Qed.

(** A required field that is absent or empty is among the missing ones. *)
Lemma missing_required_field d fields f :
  f ∈ requiredFields d → required f = true →
  fields !! key f = None ∨ fields !! key f = Some "" →
  key f ∈ missingFields d fields.
Proof.
  intros Hf Hreq Hmiss. apply elem_of_missingFields.
  exists f. by rewrite present_false.
Qed.

(** ** Claims about the registry *)

(** C1. For a service of the catalog, [configure] fails with a
    ValidationError naming exactly the required fields that are absent or
    empty whenever there is one, and then writes nothing; it succeeds
    exactly when every required field is present and non-empty; and keys
    the descriptor does not declare are ignored, not rejected: two mappings
    that agree on the declared keys have the same outcome. *)
Theorem C1_configure_validates_required_fields
    (store : Store) (svc : string) (d : ServiceDescriptor)
    (fields : gmap string string) :
  descriptor catalog svc = Some d →
  ((∃ f, f ∈ requiredFields d ∧ required f = true
         ∧ (fields !! key f = None ∨ fields !! key f = Some "")) →
     configure encrypt catalog store svc fields
       = (Failure (ValidationError (missingFields d fields)), store)
     ∧ missingFields d fields ≠ [])
  ∧ (∀ k, k ∈ missingFields d fields ↔
          ∃ f, f ∈ requiredFields d ∧ key f = k ∧ required f = true
               ∧ (fields !! k = None ∨ fields !! k = Some ""))
  ∧ ((configure encrypt catalog store svc fields).1 = Success ↔
       ∀ f, f ∈ requiredFields d → required f = true →
            ∃ value, fields !! key f = Some value ∧ value ≠ "")
  ∧ (∀ fields' : gmap string string,
       (∀ f, f ∈ requiredFields d → fields' !! key f = fields !! key f) →
       (configure encrypt catalog store svc fields').1
       = (configure encrypt catalog store svc fields).1).
Proof.
  intros Hd. split; [|split; [|split]].
  - intros (f & Hf & Hreq & Hmiss).
    pose proof (missing_required_field d fields f Hf Hreq Hmiss) as Hin.
    rewrite (configure_known _ _ _ _ Hd).
    destruct (missingFields d fields) as [|k rest]; [by apply elem_of_nil in Hin|].
    done.
  - intros k. rewrite elem_of_missingFields. split.
    + intros (f & Hf & <- & Hreq & Hp). exists f. by rewrite <- present_false.
    + intros (f & Hf & <- & Hreq & Hp). exists f. by rewrite present_false.
  - rewrite (configure_known _ _ _ _ Hd).
    destruct (missingFields d fields) as [|k rest] eqn:Hm; simpl.
    + split; [|done]. intros _ f Hf Hreq. apply present_true.
      by apply (proj1 (missingFields_nil d fields) Hm).
    + split; [done|]. intros Hall. exfalso.
      assert (missingFields d fields = []) as Hnil; [|congruence].
      apply missingFields_nil. intros f Hf Hreq. apply present_true. auto.
  - intros fields' Hsame. rewrite !(configure_known _ _ _ _ Hd).
    rewrite (missingFields_ext d fields' fields).
    + by destruct (missingFields d fields).
    + intros f Hf. unfold present. by rewrite (Hsame f Hf).
Qed.

(** C5. A [configure] that leaves a required field absent or empty fails
    with a ValidationError naming that field and leaves what is persisted
    as it was: the store is unchanged, so the record of the service and the
    status of every service are those from before the call.  The same holds
    of any [configure] that fails. *)
Theorem C5_rejected_configure_changes_nothing
    (store : Store) (svc : string) (d : ServiceDescriptor) (f : FieldSpec)
    (fields : gmap string string) :
  descriptor catalog svc = Some d →
  f ∈ requiredFields d →
  required f = true →
  fields !! key f = None ∨ fields !! key f = Some "" →
  let after := configure encrypt catalog store svc fields in
  (∃ missing, after.1 = Failure (ValidationError missing) ∧ key f ∈ missing)
  ∧ after.2 = store
  ∧ after.2 !! svc = store !! svc
  ∧ statusOf after.2 svc = statusOf store svc
  ∧ getStatus catalog after.2 = getStatus catalog store
  ∧ (∀ (fields' : gmap string string) e,
       (configure encrypt catalog store svc fields').1 = Failure e →
       (configure encrypt catalog store svc fields').2 = store).
Proof.
  intros Hd Hf Hreq Hmiss after. subst after.
  pose proof (missing_required_field d fields f Hf Hreq Hmiss) as Hin.
  split; [|split; [|split; [|split; [|split]]]].
  - rewrite (configure_known _ _ _ _ Hd).
    destruct (missingFields d fields) as [|k rest] eqn:Hm;
      [by apply elem_of_nil in Hin|].
    simpl. eauto.
  - rewrite (configure_known _ _ _ _ Hd).
    by destruct (missingFields d fields); [apply elem_of_nil in Hin|].
  - rewrite (configure_known _ _ _ _ Hd).
    by destruct (missingFields d fields); [apply elem_of_nil in Hin|].
  - rewrite (configure_known _ _ _ _ Hd).
    by destruct (missingFields d fields); [apply elem_of_nil in Hin|].
  - rewrite (configure_known _ _ _ _ Hd).
    by destruct (missingFields d fields); [apply elem_of_nil in Hin|].
  - intros fields' e. apply configure_failure_store.
Qed.

(** C8. What [configure] returns and what the status read after it returns
    do not depend on the values of the fields, only on which of them are
    present and non-empty: two configurations that differ in their secrets
    give the same outcome and the same statuses, so neither shows a secret.
    What is persisted for a field is the encryption of its value. *)
Theorem C8_reads_do_not_depend_on_secret_values
    (store : Store) (svc : string) (fields1 fields2 : gmap string string) :
  (∀ k, present fields1 k = present fields2 k) →
  (configure encrypt catalog store svc fields1).1
    = (configure encrypt catalog store svc fields2).1
  ∧ getStatus catalog (configure encrypt catalog store svc fields1).2
    = getStatus catalog (configure encrypt catalog store svc fields2).2
  ∧ (∀ (store' : Store) cfg k sealed,
       configure encrypt catalog store svc fields1 = (Success, store') →
       store' !! svc = Some cfg →
       secretFields cfg !! k = Some sealed →
       ∃ value, fields1 !! k = Some value ∧ sealed = encrypt value).
Proof.
  intros Hsame. split; [|split].
  - unfold configure. destruct (descriptor catalog svc) as [d|]; [|done].
    rewrite (missingFields_ext d fields1 fields2) by (intros; apply Hsame).
    by destruct (missingFields d fields2).
  - unfold configure. destruct (descriptor catalog svc) as [d|]; [|done].
    rewrite (missingFields_ext d fields1 fields2) by (intros; apply Hsame).
    destruct (missingFields d fields2) as [|k rest]; simpl; [|done].
    apply getStatus_ext. intros other. by rewrite !statusOf_insert.
  - intros store' cfg k sealed Hc Hcfg Hk.
    apply configure_success_inv in Hc as (d & _ & _ & ->).
    rewrite lookup_insert_eq in Hcfg. injection Hcfg as <-.
    simpl in Hk. rewrite lookup_fmap in Hk.
    destruct (fields1 !! k) as [value|]; [|done].
    injection Hk as <-. eauto.
Qed.

(** C7. [removeConfiguration] succeeds, deletes the record of the service
    and leaves its status [not_configured]; a second call succeeds too and
    changes nothing, as does a call for a service that has no
    configuration.  Other services keep their records. *)
Theorem C7_removeConfiguration_idempotent (store : Store) (svc : string) :
  let once := removeConfiguration store svc in
  let twice := removeConfiguration once.2 svc in
  once.1 = Success
  ∧ once.2 !! svc = None
  ∧ statusOf once.2 svc = not_configured
  ∧ twice.1 = Success
  ∧ twice.2 = once.2
  ∧ statusOf twice.2 svc = not_configured
  ∧ (store !! svc = None → once.2 = store)
  ∧ (∀ other, other ≠ svc → once.2 !! other = store !! other).
Proof.
  simpl. split; [done|]. split; [apply lookup_delete_eq|].
  split; [by rewrite statusOf_delete, decide_True|]. split; [done|].
  split; [apply delete_id, lookup_delete_eq|].
  split; [by rewrite !statusOf_delete, decide_True|].
  split; [apply delete_id|]. intros other Hne. by apply lookup_delete_ne.
Qed.

End registry_facts.

(** *** The claims at concrete inputs *)

Lemma twitter_descriptor :
  descriptor source_catalog "twitter"
  = Some {| name := "twitter";
            category := social_media;
            description := "Twitter API v2";
            requiredFields :=
              [ primary_field;
                {| key := "api_secret"; label := "API Secret";
                   kind := password; required := true |};
                {| key := "access_token"; label := "Access Token";
                   kind := text; required := true |};
                {| key := "access_secret"; label := "Access Token Secret";
                   kind := password; required := true |} ] |}.
Proof. reflexivity. Qed.

(** [twitter] with only its [apiKey]: the three other fields are named. *)
Lemma C1_witness :
  configure Seal source_catalog ∅ "twitter" {[ "apiKey" := "k" ]}
  = (Failure (ValidationError ["api_secret"; "access_token"; "access_secret"]),
     ∅).
Proof.
  destruct (C1_configure_validates_required_fields Seal source_catalog ∅
              "twitter" _ {[ "apiKey" := "k" ]} twitter_descriptor)
    as (Hfail & _).
  destruct Hfail as [Heq _].
  - exists {| key := "api_secret"; label := "API Secret";
              kind := password; required := true |}.
    split; [|split; [reflexivity|left; reflexivity]].
    simpl. apply elem_of_cons. right. apply elem_of_cons. by left.
  - rewrite Heq. reflexivity.
Defined.

(** The scenario of the specification: [twitter], configured and then
    tested with a checker that succeeds, is connected; configured again
    with an empty key it is refused and stays connected, its record
    untouched. *)
Lemma C5_witness :
  statusOf twitter_connected "twitter" = connected
  ∧ (configure Seal source_catalog twitter_connected "twitter"
       {[ "apiKey" := "" ]}).1
    = Failure (ValidationError
                 ["apiKey"; "api_secret"; "access_token"; "access_secret"])
  ∧ (configure Seal source_catalog twitter_connected "twitter"
       {[ "apiKey" := "" ]}).2 = twitter_connected
  ∧ statusOf
      (configure Seal source_catalog twitter_connected "twitter"
         {[ "apiKey" := "" ]}).2
      "twitter" = connected.
Proof.
  assert (primary_field
          ∈ requiredFields
              {| name := "twitter";
                 category := social_media;
                 description := "Twitter API v2";
                 requiredFields :=
                   [ primary_field;
                     {| key := "api_secret"; label := "API Secret";
                        kind := password; required := true |};
                     {| key := "access_token"; label := "Access Token";
                        kind := text; required := true |};
                     {| key := "access_secret"; label := "Access Token Secret";
                        kind := password; required := true |} ] |}) as Hin
    by (simpl; apply elem_of_cons; by left).
  assert (({[ "apiKey" := "" ]} : gmap string string) !! key primary_field
          = None
          ∨ ({[ "apiKey" := "" ]} : gmap string string) !! key primary_field
            = Some "") as Hempty by (right; reflexivity).
  destruct (C5_rejected_configure_changes_nothing Seal source_catalog
              twitter_connected "twitter" _ primary_field {[ "apiKey" := "" ]}
              twitter_descriptor Hin eq_refl Hempty)
    as (_ & Hstore & _ & Hst & _).
  split; [reflexivity|]. split; [reflexivity|].
  split; [exact Hstore|]. rewrite Hst. reflexivity.
Defined.

(** Two configurations of [anthropic] that differ in the key: the statuses
    read afterwards are the same. *)
Lemma C8_witness :
  getStatus source_catalog
    (configure Seal source_catalog ∅ "anthropic" {[ "apiKey" := "abc123" ]}).2
  = getStatus source_catalog
    (configure Seal source_catalog ∅ "anthropic" {[ "apiKey" := "zyx987" ]}).2.
Proof.
  apply (C8_reads_do_not_depend_on_secret_values Seal source_catalog ∅
           "anthropic" {[ "apiKey" := "abc123" ]} {[ "apiKey" := "zyx987" ]}).
  intros k. unfold present. destruct (decide (k = "apiKey")) as [->|Hne].
  - by rewrite !lookup_singleton_eq.
  - by rewrite !lookup_singleton_ne.
Defined.

(** The status read after configuring [anthropic] with the key [abc123]:
    names and statuses, and the key nowhere. *)
Example status_after_configure_anthropic :
  getStatus source_catalog
    (configure Seal source_catalog ∅ "anthropic" {[ "apiKey" := "abc123" ]}).2
  = [ ("anthropic", disconnected); ("openai", not_configured);
      ("instagram", not_configured); ("facebook", not_configured);
      ("twitter", not_configured); ("tiktok", not_configured);
      ("threads", not_configured); ("bluesky", not_configured);
      ("google_analytics", not_configured); ("facebook_pixel", not_configured);
      ("amazon_kdp", not_configured); ("bookbub", not_configured);
      ("mailchimp", not_configured); ("convertkit", not_configured);
      ("author_email", not_configured);
      ("notification_preferences", not_configured) ].
Proof. reflexivity. Qed.

(** *** The registry of the specification on the scenario for twitter *)

(** Configured with all four fields, then tested with a checker that
    succeeds, [twitter] is connected; configured again with an empty key it
    is refused, all four fields named, and stays connected.  Removing the
    configuration twice leaves it not configured. *)
Example twitter_scenario :
  (run Seal source_catalog ∅
       [ Configure "twitter" twitter_fields;
         TestConnection "twitter" Reachable 1 ]).1 = [Success; Success]
  ∧ statusOf twitter_connected "twitter" = connected
  ∧ (configure Seal source_catalog twitter_connected "twitter"
       {[ "apiKey" := "" ]}).1
    = Failure (ValidationError
                 ["apiKey"; "api_secret"; "access_token"; "access_secret"])
  ∧ statusOf
      (configure Seal source_catalog twitter_connected "twitter"
         {[ "apiKey" := "" ]}).2
      "twitter" = connected
  ∧ statusOf
      (run Seal source_catalog twitter_connected
           [ RemoveConfiguration "twitter"; RemoveConfiguration "twitter" ]).2
      "twitter" = not_configured.
Proof. repeat split. Qed.

(** Where the component posts [twitter] with only its key, the registry of
    the specification refuses the same body and names the three other
    fields. *)
Example registry_refuses_what_the_component_posts :
  configure Seal source_catalog ∅ "twitter"
    (fields_of {| Settings.cfg_service := "twitter";
                  Settings.cfg_apiKey := "k";
                  Settings.cfg_additionalConfig := ∅ |})
  = (Failure (ValidationError ["api_secret"; "access_token"; "access_secret"]),
     ∅).
Proof. reflexivity. Qed.

End RegistryFacts.

(** ** Further properties of [services/config.ts] *)

Module ConfigExtras.
Import Config ConfigFacts.

Lemma get_None {A} key (entries : list (string * A)) :
  key ∉ entries.*1 → get key entries = None.
Proof.
  induction entries as [|[k v] rest IH]; simpl; [done|].
  intros Hnot. case_decide as Hk.
  - subst. destruct Hnot. left.
  - apply IH. intros Hin. apply Hnot. by right.
Qed.

Lemma some_nonempty_single field value :
  some_nonempty [(field, value)] = false ↔ value = "".
Proof.
  rewrite some_nonempty_cons. unfold nonempty. simpl. rewrite orb_false_r.
  rewrite bool_decide_eq_false. split.
  - intros Hv. by destruct (decide (value = "")).
  - intros ->. by intros [].
Qed.

Ltac with_baseUrl :=
  cbn [snd]; rewrite !some_nonempty_cons; by rewrite ?orb_true_r.

(** The list of missing services, computed entry by entry: the eighteen
    entries with a [baseUrl] drop out, the two analytics entries stay when
    their id is empty. *)
Lemma getMissingConfigs_analytics env :
  getMissingConfigs env
  = (if decide (env_or_empty env "REACT_APP_GOOGLE_ANALYTICS_ID" = "")
     then ["googleAnalytics"] else [])
    ++ (if decide (env_or_empty env "REACT_APP_FACEBOOK_PIXEL_ID" = "")
        then ["facebookPixel"] else []).
Proof.
  rewrite getMissingConfigs_filter. unfold API_CONFIG.
  repeat (rewrite filter_cons_False by with_baseUrl).
  rewrite filter_cons. cbn [snd].
  rewrite (filter_cons _ ("facebookPixel", _)). cbn [snd].
  repeat (rewrite filter_cons_False by with_baseUrl).
  rewrite filter_nil.
  destruct (decide (env_or_empty env "REACT_APP_GOOGLE_ANALYTICS_ID" = ""))
    as [Hga|Hga];
    destruct (decide (env_or_empty env "REACT_APP_FACEBOOK_PIXEL_ID" = ""))
      as [Hfp|Hfp].
  - rewrite !decide_True by (by apply some_nonempty_single). done.
  - rewrite decide_True by (by apply some_nonempty_single).
    rewrite decide_False by (by rewrite some_nonempty_single). done.
  - rewrite decide_False by (by rewrite some_nonempty_single).
    rewrite decide_True by (by apply some_nonempty_single). done.
  - rewrite !decide_False by (by rewrite some_nonempty_single). done.
Qed.

(** X1. Whatever the environment holds, [isConfigured] is true for every
    service of [API_CONFIG] other than the two analytics entries, because
    the constant [baseUrl] counts as a value: none of them is ever reported
    missing, all their credentials empty included.  [getMissingConfigs]
    returns [googleAnalytics] exactly when its id is unset or empty, then
    [facebookPixel] exactly when its id is, and nothing else. *)
Theorem X1_only_analytics_can_be_missing (env : Env) :
  (∀ service,
     service ∈ service_keys →
     service ≠ "googleAnalytics" → service ≠ "facebookPixel" →
     isConfigured env service = true ∧ service ∉ getMissingConfigs env)
  ∧ getMissingConfigs env
    = (if decide (env_or_empty env "REACT_APP_GOOGLE_ANALYTICS_ID" = "")
       then ["googleAnalytics"] else [])
      ++ (if decide (env_or_empty env "REACT_APP_FACEBOOK_PIXEL_ID" = "")
          then ["facebookPixel"] else [])
  ∧ isConfigured ∅ "twitter" = true.
Proof.
  split; [|split; [apply getMissingConfigs_analytics|reflexivity]].
  intros service Hin Hga Hfp.
  assert (isConfigured env service = true) as Hc
    by (by apply isConfigured_baseUrl).
  split; [done|]. rewrite getMissingConfigs_keys. intros Hm.
  apply list_elem_of_filter in Hm as [Hm _]. congruence.
Qed.

(** X2. For a name that is not a key of [API_CONFIG], [isConfigured]
    answers false, and yet [getMissingConfigs] does not list it: the list
    only ever holds keys of the table. *)
Theorem X2_unknown_service_neither_configured_nor_missing
    (env : Env) (service : string) :
  service ∉ service_keys →
  isConfigured env service = false
  ∧ (service ∉ getMissingConfigs env)
  ∧ (∀ listed, listed ∈ getMissingConfigs env → listed ∈ service_keys).
Proof.
  intros Hnot.
  assert (∀ listed, listed ∈ getMissingConfigs env → listed ∈ service_keys)
    as Hkeys.
  { intros listed. rewrite getMissingConfigs_keys.
    intros H. by apply list_elem_of_filter in H as [_ H]. }
  split; [|split; [|exact Hkeys]].
  - unfold isConfigured. rewrite get_None; [done|].
    by rewrite API_CONFIG_keys.
  - intros Hin. by apply Hnot, Hkeys.
Qed.

Lemma X2_witness :
  isConfigured ∅ "google_analytics" = false
  ∧ "google_analytics" ∉ getMissingConfigs ∅.
Proof.
  assert ("google_analytics" ∉ service_keys) as Hnot.
  { apply (bool_decide_unpack _). by vm_compute. }
  destruct (X2_unknown_service_neither_configured_nor_missing ∅
              "google_analytics" Hnot) as (H1 & H2 & _).
  split; [exact H1|exact H2].
Defined.

End ConfigExtras.

(** ** Further properties of [components/APISettings.tsx] *)

Module SettingsExtras.
Import Settings SettingsFacts.

(** *** The header chips *)

Lemma three_statuses_count (l : list APIService) :
  (∀ s, s ∈ l → status s ∈ ["connected"; "error"; "disconnected"]) →
  length (filter (λ s, status s = "connected") l)
  + length (filter (λ s, status s = "disconnected") l)
  + length (filter (λ s, status s = "error") l)
  = length l.
Proof.
  induction l as [|a l IH]; intros Hall; [done|].
  assert (status a ∈ ["connected"; "error"; "disconnected"]) as Ha
    by (apply Hall; left).
  specialize (IH (λ s Hs, Hall s (list_elem_of_further _ _ _ Hs))).
  rewrite !filter_cons.
  apply elem_of_cons in Ha as [Ha|Ha];
    [|apply elem_of_cons in Ha as [Ha|Ha];
      [|apply elem_of_cons in Ha as [Ha|Ha]; [|by apply elem_of_nil in Ha]]];
    rewrite Ha; simpl; lia.
Qed.

(** X3. Once a status response reporting success is loaded, the three
    chips of the header (Connected, Not Configured, Error) add up to the
    number of services of the catalog, sixteen, whatever the response
    lists: every service is counted by exactly one chip. *)
Theorem X3_header_chips_add_up
    (data : gmap string (gmap string ServiceStatus)) (st : State) :
  let st' :=
    state_after
      (loadAPIStatus (Resolved {| sd_success := true; sd_data := data |})) st in
  connectedChip st' + notConfiguredChip st' + errorChip st'
    = length descriptor_names
  ∧ length (services st') = length descriptor_names
  ∧ length descriptor_names = 16.
Proof.
  intros st'. subst st'. unfold connectedChip, notConfiguredChip, errorChip.
  rewrite loadAPIStatus_success.
  rewrite three_statuses_count by (intros s; apply servicesArray_status).
  rewrite <- (servicesArray_names data), length_fmap. done.
Qed.

(** *** The category counters *)

Lemma category_block data categoryKey info :
  (categoryKey, info) ∈ serviceCategories →
  filter (λ s, category s = categoryKey) (servicesArray data)
  = service_entry data categoryKey <$> cat_services info.
Proof.
  intros H. unfold serviceCategories in H.
  repeat (apply elem_of_cons in H as [[= -> ->]|H]; [reflexivity|]).
  by apply elem_of_nil in H.
Qed.

Lemma categoryConnected_block data categoryKey info st :
  (categoryKey, info) ∈ serviceCategories →
  categoryConnected
    (state_after
       (loadAPIStatus (Resolved {| sd_success := true; sd_data := data |})) st)
    categoryKey
  = length (filter (λ s, status s = "connected")
                   (service_entry data categoryKey <$> cat_services info)).
Proof.
  intros H. unfold categoryConnected. rewrite loadAPIStatus_success.
  rewrite (list_filter_iff _
             (λ s, status s = "connected" ∧ category s = categoryKey))
    by (intros s; tauto).
  by rewrite <- list_filter_filter, (category_block _ _ _ H).
Qed.

Lemma filter_nonempty {A} (P : A → Prop) `{!∀ x, Decision (P x)} (l : list A) :
  0 < length (filter P l) ↔ ∃ x, x ∈ l ∧ P x.
Proof.
  split.
  - destruct (filter P l) as [|x rest] eqn:Hf; simpl; [lia|]. intros _.
    assert (x ∈ filter P l) as Hx by (rewrite Hf; left).
    apply list_elem_of_filter in Hx as [HP Hx]. eauto.
  - intros (x & Hx & HP).
    assert (x ∈ filter P l) as Hin by (by apply list_elem_of_filter).
    destruct (filter P l); [by apply elem_of_nil in Hin|simpl; lia].
Qed.

Ltac category_listed :=
  unfold serviceCategories;
  repeat first [apply list_elem_of_here | apply list_elem_of_further].

(** X4. Once a status response reporting success is loaded, the counter
    of each category never exceeds the number of services the category
    has, it is coloured success exactly when the response reports one of
    the category's services ['ready'], and the six counters add up to the
    Connected chip of the header. *)
Theorem X4_category_counters
    (data : gmap string (gmap string ServiceStatus)) (st : State) :
  let st' :=
    state_after
      (loadAPIStatus (Resolved {| sd_success := true; sd_data := data |})) st in
  (∀ categoryKey info,
     (categoryKey, info) ∈ serviceCategories →
     (categoryConnected st' categoryKey ≤ categoryTotal info)%nat
     ∧ (categoryChipColor st' categoryKey = "success" ↔
          ∃ serviceName description,
            (serviceName, description) ∈ cat_services info
            ∧ ss_status (serviceStatus data categoryKey serviceName) = "ready"))
  ∧ sum_list_with (λ c, categoryConnected st' c.1) serviceCategories
    = connectedChip st'.
Proof.
  intros st'. subst st'. split.
  - intros categoryKey info Hc. unfold categoryChipColor.
    rewrite (categoryConnected_block _ _ _ _ Hc). split.
    + unfold categoryTotal.
      etrans; [apply length_filter|]. by rewrite length_fmap.
    + case_decide as Hpos.
      * split; [intros _|done]. apply filter_nonempty in Hpos as (s & Hs & Hst).
        apply list_elem_of_fmap in Hs as ([serviceName description] & -> & Hs).
        exists serviceName, description. split; [done|].
        simpl in Hst. unfold displayed_status in Hst.
        case_decide; [done|]. by destruct (ss_configured _).
      * split; [done|]. intros (serviceName & description & Hs & Hready).
        destruct Hpos. apply filter_nonempty.
        exists (service_entry data categoryKey (serviceName, description)).
        split; [by apply list_elem_of_fmap_2|].
        simpl. unfold displayed_status. by rewrite decide_True.
  - unfold serviceCategories at 1. cbn [sum_list_with fst].
    erewrite !categoryConnected_block by category_listed.
    unfold connectedChip. rewrite loadAPIStatus_success.
    unfold servicesArray, serviceCategories.
    cbn [fmap list_fmap mjoin list_join cat_services].
    rewrite !filter_app, !length_app, filter_nil. simpl. lia.
Qed.

(** *** The row of a service *)

Lemma find_after_load data st categoryKey info serviceName description :
  (categoryKey, info) ∈ serviceCategories →
  (serviceName, description) ∈ cat_services info →
  find_service
    (state_after
       (loadAPIStatus (Resolved {| sd_success := true; sd_data := data |})) st)
    serviceName
  = Some (service_entry data categoryKey (serviceName, description)).
Proof.
  intros Hc Hs. unfold serviceCategories in Hc.
  repeat
    (apply elem_of_cons in Hc as [[= -> ->]|Hc];
     [ simpl in Hs;
       repeat (apply elem_of_cons in Hs as [[= -> ->]|Hs]; [reflexivity|]);
       by apply elem_of_nil in Hs
     | ]).
  by apply elem_of_nil in Hc.
Qed.

Lemma displayed_status_nonempty s : displayed_status s ≠ "".
Proof.
  unfold displayed_status. case_decide; [done|]. by destruct (ss_configured s).
Qed.

(** X5. Once a status response reporting success is loaded, what the row
    of a catalog service shows is decided by the record the response holds
    for it under its category (the default when there is none).  Reported
    ['ready']: check icon, chip connected on green, Test button.  Otherwise
    reported configured: error icon, chip error on red, no Test button.
    Otherwise: warning icon, chip disconnected on grey, no Test button. *)
Theorem X5_row_shows_the_reported_record
    (data : gmap string (gmap string ServiceStatus)) (st : State)
    (categoryKey : string) (info : CategoryInfo)
    (serviceName description : string) :
  (categoryKey, info) ∈ serviceCategories →
  (serviceName, description) ∈ cat_services info →
  let st' :=
    state_after
      (loadAPIStatus (Resolved {| sd_success := true; sd_data := data |})) st in
  let reported := serviceStatus data categoryKey serviceName in
  renderRow st' (serviceName, description)
  = if decide (ss_status reported = "ready") then
      {| row_icon := (CheckCircleIcon, "#10b981");
         row_secondary := description;
         row_chip := "connected";
         row_chip_color := "#10b981";
         row_test := true |}
    else if ss_configured reported then
      {| row_icon := (ErrorIcon, "#ef4444");
         row_secondary := description;
         row_chip := "error";
         row_chip_color := "#ef4444";
         row_test := false |}
    else
      {| row_icon := (WarningIcon, "#f59e0b");
         row_secondary := description;
         row_chip := "disconnected";
         row_chip_color := "#6b7280";
         row_test := false |}.
Proof.
  intros Hc Hs st' reported. subst st'.
  unfold renderRow, chipStatus, testOffered.
  rewrite (find_after_load _ _ _ _ _ _ Hc Hs). simpl.
  fold reported.
  rewrite decide_False by apply displayed_status_nonempty.
  unfold displayed_status.
  destruct (decide (ss_status reported = "ready")) as [Hr|Hr]; [done|].
  by destruct (ss_configured reported).
Qed.

Lemma X5_witness :
  let data : gmap string (gmap string ServiceStatus) :=
    {[ "social_media" :=
         {[ "twitter" := {| ss_enabled := true; ss_configured := true;
                            ss_status := "pending" |} ]} ]} in
  renderRow (loaded data) ("twitter", "Twitter API v2")
  = {| row_icon := (ErrorIcon, "#ef4444");
       row_secondary := "Twitter API v2";
       row_chip := "error";
       row_chip_color := "#ef4444";
       row_test := false |}.
Proof.
  intros data.
  assert (("social_media",
           {| title := "Social Media"; iconName := "ShareIcon";
              color := "#f97316";
              cat_services :=
                [ ("instagram", "Instagram Business API");
                  ("facebook", "Facebook Graph API");
                  ("twitter", "Twitter API v2");
                  ("tiktok", "TikTok for Business API");
                  ("threads", "Threads API");
                  ("bluesky", "Bluesky API") ] |}) ∈ serviceCategories) as Hc
    by category_listed.
  assert (("twitter", "Twitter API v2")
          ∈ [ ("instagram", "Instagram Business API");
              ("facebook", "Facebook Graph API");
              ("twitter", "Twitter API v2");
              ("tiktok", "TikTok for Business API");
              ("threads", "Threads API");
              ("bluesky", "Bluesky API") ]) as Hs by category_listed.
  exact (X5_row_shows_the_reported_record data initial _ _ _ _ Hc Hs).
Defined.

(** *** What of a response the list depends on *)

(** X6. The list built from a status response depends only on the records
    the response holds for the services of the catalog, each under its own
    category: two responses that agree there give the same list, so a
    record for a service the catalog does not have, or for a catalog service
    under another category, is ignored. *)
Theorem X6_servicesArray_reads_catalog_records_only
    (data1 data2 : gmap string (gmap string ServiceStatus)) :
  (∀ categoryKey info serviceName description,
     (categoryKey, info) ∈ serviceCategories →
     (serviceName, description) ∈ cat_services info →
     data1 !! categoryKey ≫= (λ listed, listed !! serviceName)
     = data2 !! categoryKey ≫= (λ listed, listed !! serviceName)) →
  servicesArray data1 = servicesArray data2.
Proof.
  intros Hsame. unfold servicesArray. f_equal.
  apply list_fmap_ext. intros i [categoryKey info] Hc.
  apply list_elem_of_lookup_2 in Hc.
  apply list_fmap_ext. intros j [serviceName description] Hs.
  apply list_elem_of_lookup_2 in Hs.
  unfold service_entry, serviceStatus.
  by rewrite (Hsame _ _ _ _ Hc Hs).
Qed.

(** A response listing [mastodon], which the catalog does not have, and
    [twitter] under [ai_services] gives the list of the empty response. *)
Lemma X6_witness :
  servicesArray
    {[ "social_media" :=
         {[ "mastodon" := {| ss_enabled := true; ss_configured := true;
                             ss_status := "ready" |} ]};
       "ai_services" :=
         {[ "twitter" := {| ss_enabled := true; ss_configured := true;
                            ss_status := "ready" |} ]} ]}
  = servicesArray ∅.
Proof.
  apply X6_servicesArray_reads_catalog_records_only.
  intros categoryKey info serviceName description Hc Hs.
  unfold serviceCategories in Hc.
  repeat
    (apply elem_of_cons in Hc as [[= -> ->]|Hc];
     [ simpl in Hs;
       repeat (apply elem_of_cons in Hs as [[= -> ->]|Hs]; [reflexivity|]);
       by apply elem_of_nil in Hs
     | ]).
  by apply elem_of_nil in Hc.
Defined.

(** *** Refreshing *)

(** X7. Loading the same status response twice leaves the component as
    loading it once does: Refresh Status is idempotent.  However the
    request ends, reported success, refused or thrown, the loading flag is
    false afterwards, so the spinner never stays.  A response reporting
    success replaces the whole list, whatever was listed before; any other
    outcome keeps the list as it was. *)
Theorem X7_loadAPIStatus_idempotent
    (response : Awaited StatusData) (st : State) :
  let once := state_after (loadAPIStatus response) st in
  state_after (loadAPIStatus response) once = once
  ∧ loading once = false
  ∧ (∀ data other,
       response = Resolved {| sd_success := true; sd_data := data |} →
       services once
       = services (state_after (loadAPIStatus response) other))
  ∧ ((∀ data, response ≠ Resolved {| sd_success := true; sd_data := data |}) →
       services once = services st).
Proof.
  intros once. subst once.
  destruct response as [[[] data]|reason]; repeat split; try done.
  intros Hnot. by destruct (Hnot data).
Qed.

(** *** Saving *)

(** X8. A save the server accepts closes the dialog and asks for the
    statuses once, but the list is replaced only when that reload reports
    success.  When the reload throws, the success message is overwritten by
    the load error and the statuses shown are the old ones; when the reload
    answers without success, the statuses shown are the old ones under the
    success message. *)
Theorem X8_accepted_save_with_failed_reload
    (err : option string) (st : State) :
  let accepted := Resolved {| cd_success := true; cd_error := err |} in
  (∀ reason,
     let run := handleSaveConfiguration accepted (Rejected reason) in
     services (state_after run st) = services st
     ∧ configDialog (state_after run st) = closed_dialog
     ∧ snackbar (state_after run st)
       = {| snack_open := true; message := "Error loading API status";
            severity := SevError |}
     ∧ trace_of run st
       = [ PostConfigure {| cfg_service := dlg_service (configDialog st);
                            cfg_apiKey := apiKey st;
                            cfg_additionalConfig := additionalConfig st |};
           Shown (dlg_service (configDialog st) +:+ " configured successfully")
                 SevSuccess;
           GetStatus;
           ConsoleError "Error loading API status:" reason;
           Shown "Error loading API status" SevError ])
  ∧ (∀ data,
       let run :=
         handleSaveConfiguration accepted
           (Resolved {| sd_success := false; sd_data := data |}) in
       services (state_after run st) = services st
       ∧ configDialog (state_after run st) = closed_dialog
       ∧ snackbar (state_after run st)
         = {| snack_open := true;
              message :=
                dlg_service (configDialog st) +:+ " configured successfully";
              severity := SevSuccess |}).
Proof. intros accepted. subst accepted. split; intros; repeat split. Qed.

(** X9. Whatever the responses, a save, a connection test and a status
    load end with their in-flight flag down: [testingConnection] is false
    after a save and after a test, [loading] is false after a load.  So
    after any save the Save button is disabled exactly when the API key
    field is empty. *)
Theorem X9_handlers_end_idle
    (response : Awaited ConfigureData) (reload : Awaited StatusData)
    (timer : Awaited unit) (serviceName : string) (st : State) :
  testingConnection
    (state_after (handleSaveConfiguration response reload) st) = false
  ∧ testingConnection
      (state_after (handleTestConnection serviceName timer) st) = false
  ∧ loading (state_after (loadAPIStatus reload) st) = false
  ∧ (saveDisabled (state_after (handleSaveConfiguration response reload) st)
       = true ↔ apiKey st = "").
Proof.
  assert (testingConnection
            (state_after (handleSaveConfiguration response reload) st) = false
          ∧ apiKey (state_after (handleSaveConfiguration response reload) st)
            = apiKey st) as [Hflag Hkey].
  { destruct response as [[[] err]|reason]; [|done|done].
    by destruct reload as [[[] data]|reason]. }
  split; [exact Hflag|]. split; [by destruct timer|].
  split; [by destruct reload as [[[] data]|reason]|].
  unfold saveDisabled. rewrite Hflag, Hkey, orb_false_r.
  apply bool_decide_eq_true.
Qed.

(** *** The dialog *)

Lemma save_keeps_typed response reload st :
  apiKey (state_after (handleSaveConfiguration response reload) st) = apiKey st
  ∧ additionalConfig (state_after (handleSaveConfiguration response reload) st)
    = additionalConfig st.
Proof.
  destruct response as [[[] err]|reason]; [|done|done].
  by destruct reload as [[[] data]|reason].
Qed.

(** X10. Closing the dialog, by Cancel or by an accepted save, does not
    clear what was typed: the API key and the additional fields stay in the
    component's state.  They are cleared when the dialog is next opened, for
    whatever service: it then shows an empty, hidden key, Save disabled, and
    every additional control empty or unchecked; the list of services is
    not touched. *)
Theorem X10_typed_values_cleared_on_open_not_on_close
    (response : Awaited ConfigureData) (reload : Awaited StatusData)
    (serviceName categoryKey : string) (st : State) :
  let saved := state_after (handleSaveConfiguration response reload) st in
  let cancelled := state_after closeDialog st in
  let reopened :=
    state_after (handleConfigureService serviceName categoryKey) saved in
  (apiKey saved = apiKey st ∧ additionalConfig saved = additionalConfig st)
  ∧ (apiKey cancelled = apiKey st
     ∧ additionalConfig cancelled = additionalConfig st
     ∧ configDialog cancelled = closed_dialog)
  ∧ apiKey reopened = ""
  ∧ additionalConfig reopened = ∅
  ∧ apiKeyInputType reopened = "password"
  ∧ saveDisabled reopened = true
  ∧ dlg_service (configDialog reopened) = serviceName
  ∧ services reopened = services saved
  ∧ (∀ control, control ∈ renderAdditionalConfigFields reopened →
       match control with
       | CheckboxControl _ _ checked => checked = false
       | TextControl _ _ _ value _ => value = ""
       end).
Proof.
  intros saved cancelled reopened. subst saved cancelled reopened.
  split; [apply save_keeps_typed|]. split; [done|].
  repeat (split; [done|]).
  intros control Hin. unfold renderAdditionalConfigFields in Hin.
  apply list_elem_of_fmap in Hin as (f & -> & _).
  by case_decide.
Qed.

(** *** The additional fields *)

(** X11. Ticking or unticking an additional checkbox is read back by its
    [checked] prop, and typing into an additional text field is read back
    by its [value] prop; either change leaves every other field, the API
    key and the list of services as they were.  A field never touched
    reads unchecked, or as the empty text. *)
Theorem X11_additional_fields_round_trip (st : State) (field : string) :
  (∀ checked,
     let st' := state_after (changeCheckbox field checked) st in
     checkboxChecked st' field = checked
     ∧ (∀ other, other ≠ field →
          additionalConfig st' !! other = additionalConfig st !! other
          ∧ checkboxChecked st' other = checkboxChecked st other
          ∧ fieldValue st' other = fieldValue st other)
     ∧ apiKey st' = apiKey st ∧ services st' = services st)
  ∧ (∀ value,
       let st' := state_after (changeAdditionalField field value) st in
       fieldValue st' field = value
       ∧ (∀ other, other ≠ field →
            additionalConfig st' !! other = additionalConfig st !! other
            ∧ checkboxChecked st' other = checkboxChecked st other
            ∧ fieldValue st' other = fieldValue st other)
       ∧ apiKey st' = apiKey st ∧ services st' = services st)
  ∧ (additionalConfig st !! field = None →
       checkboxChecked st field = false ∧ fieldValue st field = "").
Proof.
  split; [|split].
  - intros checked st'. subst st'. split; [|split; [|done]].
    + unfold checkboxChecked. simpl. rewrite lookup_insert_eq.
      by destruct checked.
    + intros other Hne. unfold checkboxChecked, fieldValue. simpl.
      by rewrite lookup_insert_ne.
  - intros value st'. subst st'. split; [|split; [|done]].
    + unfold fieldValue. simpl. by rewrite lookup_insert_eq.
    + intros other Hne. unfold checkboxChecked, fieldValue. simpl.
      by rewrite lookup_insert_ne.
  - intros Hnone. unfold checkboxChecked, fieldValue. by rewrite Hnone.
Qed.

(** X12. What a save posts for an additional checkbox is the text
    ['true'] or ['false'] of its last change; a checkbox never touched since
    the dialog was opened is absent from the posted body, not ['false']:
    right after opening, the body holds no additional field at all. *)
Theorem X12_posted_checkbox_values
    (response : Awaited ConfigureData) (reload : Awaited StatusData)
    (st : State) (field : string) :
  (∀ checked,
     ∃ body,
       head (trace_of (handleSaveConfiguration response reload)
               (state_after (changeCheckbox field checked) st))
         = Some (PostConfigure body)
       ∧ cfg_additionalConfig body !! field
         = Some (if checked then "true" else "false"))
  ∧ (∃ body,
       head (trace_of (handleSaveConfiguration response reload)
               (state_after (changeCheckbox field false)
                  (state_after (changeCheckbox field true) st)))
         = Some (PostConfigure body)
       ∧ cfg_additionalConfig body !! field = Some "false")
  ∧ (∀ serviceName categoryKey key,
       head (trace_of (handleSaveConfiguration response reload)
               (dialog_with_key serviceName categoryKey key st))
       = Some (PostConfigure {| cfg_service := serviceName;
                                cfg_apiKey := key;
                                cfg_additionalConfig := ∅ |})).
Proof.
  split; [|split].
  - intros checked. rewrite handleSaveConfiguration_trace.
    eexists. split; [done|]. simpl. apply lookup_insert_eq.
  - rewrite handleSaveConfiguration_trace.
    eexists. split; [done|]. simpl. apply lookup_insert_eq.
  - intros serviceName categoryKey key.
    by rewrite handleSaveConfiguration_trace.
Qed.

(** *** Requests *)

(** X13. A save posts the configuration exactly once and asks for the
    statuses once when the server accepts it and not at all otherwise; a
    status load makes one status request and posts nothing; a connection
    test, opening or closing the dialog, and editing a field make no
    request at all. *)
Theorem X13_requests_made
    (response : Awaited ConfigureData) (reload : Awaited StatusData)
    (timer : Awaited unit) (serviceName categoryKey field value : string)
    (checked : bool) (st : State) :
  posts (trace_of (handleSaveConfiguration response reload) st) = 1
  ∧ status_requests (trace_of (handleSaveConfiguration response reload) st)
    = match response with
      | Resolved data => if cd_success data then 1 else 0
      | Rejected _ => 0
      end
  ∧ posts (trace_of (loadAPIStatus reload) st) = 0
  ∧ status_requests (trace_of (loadAPIStatus reload) st) = 1
  ∧ posts (trace_of (handleTestConnection serviceName timer) st) = 0
  ∧ status_requests (trace_of (handleTestConnection serviceName timer) st) = 0
  ∧ trace_of (handleConfigureService serviceName categoryKey) st = []
  ∧ trace_of closeDialog st = []
  ∧ trace_of (changeAdditionalField field value) st = []
  ∧ trace_of (changeCheckbox field checked) st = []
  ∧ trace_of toggleShowApiKey st = [].
Proof.
  rewrite handleSaveConfiguration_trace, handleTestConnection_trace.
  repeat split.
  - destruct response as [[[] err]|reason]; [|done|done].
    by destruct reload as [[[] data]|reason].
  - destruct response as [[[] err]|reason]; [|done|done].
    by destruct reload as [[[] data]|reason].
  - by destruct reload as [[[] data]|reason].
  - by destruct reload as [[[] data]|reason].
  - by destruct timer.
  - by destruct timer.
Qed.

(** *** Headings *)

Lemma replaceFirst_absent pattern replacement s :
  pattern ∉ Stdlib.Strings.String.list_ascii_of_string s →
  replaceFirst pattern replacement s = s.
Proof.
  induction s as [|c rest IH]; simpl; [done|]. intros Hnot.
  rewrite decide_False by (intros ->; apply Hnot; left).
  rewrite IH; [done|]. intros Hin. apply Hnot. by right.
Qed.

Lemma replaceFirst_app pattern replacement before after :
  pattern ∉ Stdlib.Strings.String.list_ascii_of_string before →
  replaceFirst pattern replacement (before +:+ String pattern after)
  = before +:+ String replacement after.
Proof.
  induction before as [|c rest IH]; simpl; intros Hnot.
  - by rewrite decide_True.
  - rewrite decide_False by (intros ->; apply Hnot; left).
    rewrite IH; [done|]. intros Hin. apply Hnot. by right.
Qed.

Lemma toUpperCase_app s1 s2 :
  toUpperCase (s1 +:+ s2) = toUpperCase s1 +:+ toUpperCase s2.
Proof. induction s1 as [|c rest IH]; simpl; [done|]. by rewrite IH. Qed.

(** X14. The heading of a service replaces only the first underscore of
    its name by a space before upper-casing: in a name with several, the
    later ones stay; a name without underscore is only upper-cased.  Every
    name of the catalog has at most one, so no heading of the catalog shows
    an underscore. *)
Theorem X14_heading_replaces_first_underscore_only
    (before after : string) :
  "_"%char ∉ Stdlib.Strings.String.list_ascii_of_string before →
  displayTitle (before +:+ "_" +:+ after)
    = toUpperCase before +:+ " " +:+ toUpperCase after
  ∧ displayTitle before = toUpperCase before
  ∧ displayTitle "a_b_c" = "A B_C"
  ∧ Forall (λ serviceName,
              "_"%char ∉ Stdlib.Strings.String.list_ascii_of_string (displayTitle serviceName))
           descriptor_names.
Proof.
  intros Hnot. unfold displayTitle. split; [|split; [|split]].
  - change (before +:+ "_" +:+ after) with (before +:+ String "_" after).
    rewrite replaceFirst_app by done. by rewrite toUpperCase_app.
  - by rewrite replaceFirst_absent.
  - reflexivity.
  - apply (bool_decide_unpack _). by vm_compute.
Qed.

Lemma X14_witness :
  displayTitle "notification_preferences" = "NOTIFICATION PREFERENCES".
Proof.
  assert ("_"%char ∉ Stdlib.Strings.String.list_ascii_of_string "notification") as Hnot.
  { apply (bool_decide_unpack _). by vm_compute. }
  destruct (X14_heading_replaces_first_underscore_only
              "notification" "preferences" Hnot) as [Heq _].
  exact Heq.
Defined.

End SettingsExtras.
